(** * Word-to-tile tokenizer and lesson-text importer of WRS-Dojo

    A shallow embedding of [parseWordToTiles], [parseCSVLine] and
    [parseLessonText] (src/App.tsx).  JavaScript strings are modelled as
    Rocq [string]s over [ascii]: the characters the functions inspect are
    ASCII, with the exception of the two non-ASCII bullet markers of
    [cleanLine], which lie outside this alphabet.  [toLowerCase], [trim]
    and the regular-expression classes [\s], [\d], [\w] are their ASCII
    restrictions. *)

From Stdlib Require Import String Ascii List Arith Lia Bool.
Import ListNotations.
Open Scope char_scope.
Open Scope string_scope.
Open Scope list_scope.
Open Scope nat_scope.

(** ** Characters and JavaScript string primitives *)

Module JS.

Definition is_upper (c : ascii) : bool :=
  let n := nat_of_ascii c in (65 <=? n) && (n <=? 90).

Definition is_digit (c : ascii) : bool :=
  let n := nat_of_ascii c in (48 <=? n) && (n <=? 57).

Definition is_alpha (c : ascii) : bool :=
  let n := nat_of_ascii c in
  ((65 <=? n) && (n <=? 90)) || ((97 <=? n) && (n <=? 122)).

(** [a-zA-Z0-9] *)
Definition is_alnum (c : ascii) : bool := is_alpha c || is_digit c.

(** [\w] = [A-Za-z0-9_] *)
Definition is_word (c : ascii) : bool := is_alnum c || (c =? "_"%char)%char.

(** [\s] and the characters removed by [String.prototype.trim]:
    tab, line feed, vertical tab, form feed, carriage return, space. *)
Definition is_space (c : ascii) : bool :=
  let n := nat_of_ascii c in ((9 <=? n) && (n <=? 13)) || (n =? 32).

(** Line terminators, not matched by the regex dot. *)
Definition is_line_term (c : ascii) : bool :=
  (c =? "010"%char)%char || (c =? "013"%char)%char.

Definition lower_char (c : ascii) : ascii :=
  if is_upper c then ascii_of_nat (nat_of_ascii c + 32) else c.

Fixpoint toLowerCase (s : string) : string :=
  match s with
  | EmptyString => EmptyString
  | String c s' => String (lower_char c) (toLowerCase s')
  end.

Fixpoint trim_start (s : string) : string :=
  match s with
  | String c s' => if is_space c then trim_start s' else s
  | EmptyString => EmptyString
  end.

Definition rev_string (s : string) : string :=
  string_of_list_ascii (rev (list_ascii_of_string s)).

Definition trim (s : string) : string :=
  rev_string (trim_start (rev_string (trim_start s))).

Definition startsWith (s p : string) : bool := String.prefix p s.

Fixpoint includes (s p : string) : bool :=
  match s with
  | EmptyString => String.prefix p s
  | String _ s' => String.prefix p s || includes s' p
  end.

Definition includes_char (s : string) (c : ascii) : bool :=
  includes s (String c EmptyString).

(** [s.indexOf(c, from)] for a one-character search string. *)
Fixpoint indexOf_go (c : ascii) (from pos : nat) (s : string) : option nat :=
  match s with
  | EmptyString => None
  | String a s' =>
      if (from <=? pos) && (a =? c)%char then Some pos
      else indexOf_go c from (S pos) s'
  end.

Definition indexOf (s : string) (c : ascii) (from : nat) : option nat :=
  indexOf_go c from 0 s.

(** [s.substring(i, j)]: both indices clamped to the length, then ordered. *)
Definition substring2 (s : string) (i j : nat) : string :=
  let len := String.length s in
  let i' := Nat.min i len in
  let j' := Nat.min j len in
  String.substring (Nat.min i' j') (Nat.max i' j' - Nat.min i' j') s.

(** [s.substring(i)] and [s.slice(i)] for a non-negative [i]. *)
Definition slice (s : string) (i : nat) : string :=
  substring2 s i (String.length s).

(** [s[i]] *)
Definition char_at (s : string) (i : nat) : option ascii := String.get i s.

End JS.

Notation "a <|> b" := (match a with Some x => Some x | None => b end)
  (at level 50, left associativity).

(** ** The tile tokenizer [parseWordToTiles] *)

Module Tiles.

Inductive TileType :=
| consonant | vowel | vowelTeam | digraph | welded
| suffix | rControl | prefix | syllable | space.

Record TileData := mkTile { text : string; type : TileType }.

(** WRS-Standard Welded Sounds (Green Cards) *)
Definition weldedSounds : list string :=
  ["all"; "am"; "an"; "ang"; "ing"; "ong"; "ung"; "ank"; "ink"; "onk"; "unk";
   "ild"; "ind"; "old"; "ost"; "olt"; "ive"]%string.

(** Vowel Teams (Salmon Cards) *)
Definition vowelTeams : list string :=
  ["eigh"; "igh";
   "ai"; "ay"; "ee"; "ea"; "ey"; "oi"; "oy"; "oa"; "oe"; "ow"; "ou"; "oo";
   "ue"; "ew"; "au"; "aw"; "ie"; "ei"; "ui"]%string.

(** Digraphs & Trigraphs (Ivory Cards) *)
Definition digraphs : list string :=
  ["sh"; "ch"; "th"; "wh"; "ck"; "ph"; "qu"; "wr"; "kn"; "gn"; "mb"; "tch"; "dge"]%string.

Definition vowels : list ascii := ["a"; "e"; "i"; "o"; "u"; "y"]%char.

Definition rControlled : list string := ["ar"; "or"; "er"; "ir"; "ur"]%string.

(** Longest prefix whose characters all satisfy [p]. *)
Fixpoint take_while (p : ascii -> bool) (s : string) : string :=
  match s with
  | String c s' => if p c then String c (take_while p s') else EmptyString
  | EmptyString => EmptyString
  end.

(** [remaining.match(/^\|([^|]*  )\|/)] (the star applies to [[^|]]):
    the capture and the match length. *)
Definition syllableMatch (remaining : string) : option (string * nat) :=
  match remaining with
  | String c s' =>
      if (c =? "|"%char)%char then
        let inner := take_while (fun c => negb (c =? "|"%char)%char) s' in
        match JS.char_at s' (String.length inner) with
        | Some "|"%char => Some (inner, 2 + String.length inner)
        | _ => None
        end
      else None
  | EmptyString => None
  end.

(** [remaining.match(/^-([a-zA-Z0-9]+)/)]: the whole match. *)
Definition suffixMatch (remaining : string) : option string :=
  match remaining with
  | String c s' =>
      if (c =? "-"%char)%char then
        let run := take_while JS.is_alnum s' in
        if 1 <=? String.length run then Some (String "-"%char run) else None
      else None
  | EmptyString => None
  end.

(** [remaining.match(/^([a-zA-Z0-9]+)-/)]: the whole match. *)
Definition prefixMatch (remaining : string) : option string :=
  let run := take_while JS.is_alnum remaining in
  if 1 <=? String.length run then
    match JS.char_at remaining (String.length run) with
    | Some "-"%char => Some (String.append run "-")
    | _ => None
    end
  else None.

(** An override wrapper: opener at the start, [indexOf(closer, from)]. *)
Definition override (opener closer : ascii) (from : nat) (k : TileType)
    (remaining : string) : option (TileData * string) :=
  if JS.startsWith remaining (String opener EmptyString) then
    match JS.indexOf remaining closer from with
    | Some close =>
        Some (mkTile (JS.substring2 remaining 1 close) k,
              JS.slice remaining (close + 1))
    | None => None
    end
  else None.

(** One auto-detection table: the first entry, in table order, that the
    lower-cased remaining text starts with. *)
Definition table_rule (table : list string) (k : TileType)
    (remaining : string) : option (TileData * string) :=
  let current := JS.toLowerCase remaining in
  match find (fun p => JS.startsWith current p) table with
  | Some p =>
      Some (mkTile (JS.substring2 remaining 0 (String.length p)) k,
            JS.slice remaining (String.length p))
  | None => None
  end.

Definition single_letter (c : ascii) (remaining : string) : TileData * string :=
  let charLower := JS.lower_char c in
  if existsb (fun v => (v =? charLower)%char) vowels
  then (mkTile (String c EmptyString) vowel, JS.slice remaining 1)
  else (mkTile (String c EmptyString) consonant, JS.slice remaining 1).

(** One iteration of the [while (remaining.length > 0)] loop, on the
    non-empty [remaining = String c rest]. *)
Definition tile_step (c : ascii) (rest : string) : TileData * string :=
  let remaining := String c rest in
  let rule :=
    (if JS.startsWith remaining " " then
       Some (mkTile "" space, JS.slice remaining 1) else None)
    <|> (match syllableMatch remaining with
         | Some (inner, len) =>
             Some (mkTile inner syllable, JS.slice remaining len)
         | None => None
         end)
    <|> override "<"%char ">"%char 0 suffix remaining
    <|> (match suffixMatch remaining with
         | Some m => Some (mkTile m suffix, JS.slice remaining (String.length m))
         | None => None
         end)
    <|> (match prefixMatch remaining with
         | Some m => Some (mkTile m prefix, JS.slice remaining (String.length m))
         | None => None
         end)
    <|> override "["%char "]"%char 0 vowel remaining
    <|> override "{"%char "}"%char 0 consonant remaining
    <|> override "/"%char "/"%char 1 welded remaining
    <|> table_rule weldedSounds welded remaining
    <|> table_rule vowelTeams vowelTeam remaining
    <|> table_rule rControlled rControl remaining
    <|> table_rule digraphs digraph remaining
  in
  match rule with
  | Some r => r
  | None => single_letter c remaining
  end.

(** The loop, run for at most [fuel] iterations; returns the tiles pushed
    and the text still remaining. *)
Fixpoint tiles_loop (fuel : nat) (tiles : list TileData) (remaining : string)
    : list TileData * string :=
  match fuel with
  | O => (tiles, remaining)
  | S f =>
      match remaining with
      | EmptyString => (tiles, remaining)
      | String c rest =>
          let (t, r) := tile_step c rest in tiles_loop f (tiles ++ [t]) r
      end
  end.

(** Every iteration consumes at least one character, so [length word]
    iterations reach the end of the loop (lemma [tiles_loop_consumes]). *)
Definition parseWordToTiles (word : string) : list TileData :=
  fst (tiles_loop (String.length word) [] word).

End Tiles.

(** ** String helpers of [parseLessonText] *)

Module Text.
Import JS.

(** [s.split(re)] for a separator [re] that never matches the empty
    string: [sep s] is the length of the match of [re] at the start of [s]
    (sticky), if any.  After a match the scan resumes at its end. *)
Fixpoint split_go (sep : string -> option nat) (s : string) (skip : nat)
    (cur : string) (acc : list string) : list string :=
  match s with
  | EmptyString => rev (cur :: acc)
  | String c s' =>
      match skip with
      | S k => split_go sep s' k cur acc
      | O =>
          match sep s with
          | Some (S k) => split_go sep s' k EmptyString (cur :: acc)
          | _ => split_go sep s' 0 (String.append cur (String c EmptyString)) acc
          end
      end
  end.

Definition split (sep : string -> option nat) (s : string) : list string :=
  split_go sep s 0 EmptyString [].

(** A one-character separator. *)
Definition sep_char (p : ascii -> bool) (s : string) : option nat :=
  match s with
  | String c _ => if p c then Some 1 else None
  | EmptyString => None
  end.

Definition is_nl (c : ascii) : bool := (c =? "010"%char)%char.

(** [s.split('\n')] *)
Definition split_lines (s : string) : list string := split (sep_char is_nl) s.

(** [s.split(/,|\n/)] *)
Definition sep_comma_nl : string -> option nat :=
  sep_char (fun c => (c =? ","%char)%char || is_nl c).

(** [s.split(/:/)] *)
Definition sep_colon : string -> option nat := sep_char (fun c => (c =? ":"%char)%char).

(** [/,|;|\t|\s{2,}/]: the alternatives in order at one position. *)
Definition sep_list (s : string) : option nat :=
  match s with
  | String c _ =>
      if (c =? ","%char)%char || (c =? ";"%char)%char || (c =? "009"%char)%char
      then Some 1
      else
        let w := String.length (Tiles.take_while is_space s) in
        if 2 <=? w then Some w else None
  | EmptyString => None
  end.

(** [s.split(/:(.+)/)[1]]: the capture of the leftmost match, the longest
    run of non-line-terminators after a colon. *)
Fixpoint colon_capture (s : string) : option string :=
  match s with
  | EmptyString => None
  | String c s' =>
      if (c =? ":"%char)%char then
        let run := Tiles.take_while (fun x => negb (is_line_term x)) s' in
        if 1 <=? String.length run then Some run else colon_capture s'
      else colon_capture s'
  end.

Definition drop (n : nat) (s : string) : string :=
  String.substring n (String.length s - n) s.

(** [s.replace(/^\d+[\.)]\s*/, '')] *)
Definition strip_num_prefix (s : string) : string :=
  let d := Tiles.take_while is_digit s in
  if 1 <=? String.length d then
    match char_at s (String.length d) with
    | Some p =>
        if (p =? "."%char)%char || (p =? ")"%char)%char
        then trim_start (drop (S (String.length d)) s)
        else s
    | None => s
    end
  else s.

(** [rawLine.match(/^N[\.)]/)] for a digit [N]. *)
Definition num_marker (n : ascii) (s : string) : bool :=
  match s with
  | String c (String p _) =>
      (c =? n)%char && ((p =? "."%char)%char || (p =? ")"%char)%char)
  | _ => false
  end.

Fixpoint filter_chars (p : ascii -> bool) (s : string) : string :=
  match s with
  | EmptyString => EmptyString
  | String c s' => if p c then String c (filter_chars p s') else filter_chars p s'
  end.

Fixpoint map_chars (f : ascii -> ascii) (s : string) : string :=
  match s with
  | EmptyString => EmptyString
  | String c s' => String (f c) (map_chars f s')
  end.

(** [.replace(/^[-*•➢]\s+/, '')] restricted to ASCII: the bullets [-]
    and [*] followed by at least one white-space character. *)
Definition strip_bullet (s : string) : string :=
  match s with
  | String c (String w s') =>
      if ((c =? "-"%char)%char || (c =? "*"%char)%char) && is_space w
      then trim_start s'
      else s
  | _ => s
  end.

(** [cleanLine]: trim, bullets, checkbox brackets, tabs to spaces. *)
Definition cleanLine (l : string) : string :=
  map_chars (fun c => if (c =? "009"%char)%char then " "%char else c)
    (filter_chars (fun c => negb ((c =? "["%char)%char || (c =? "]"%char)%char))
       (strip_bullet (trim l))).

Definition nonempty (s : string) : bool := 1 <=? String.length s.

(** [extractList] *)
Definition extractList (str : string) : list string :=
  let str1 :=
    if includes str ":" then
      match colon_capture str with Some c => c | None => EmptyString end
    else str in
  let str2 := strip_num_prefix str1 in
  let candidates := split sep_list str2 in
  filter (fun s => nonempty s && negb (includes (toLowerCase s) "word count"))
    (map trim candidates).

(** [.replace(/^"|"$/g, '')] *)
Definition strip_quotes (s : string) : string :=
  let s1 := match s with String c s' => if (c =? "034"%char)%char then s' else s | _ => s end in
  let n := String.length s1 in
  match char_at s1 (n - 1) with
  | Some c => if (1 <=? n) && (c =? "034"%char)%char then String.substring 0 (n - 1) s1 else s1
  | None => s1
  end.

Definition quote : ascii := "034".

(** The character loop of [parseCSVLine]: [result] so far, the field
    being read, and the quote state. *)
Fixpoint csv_go (s : string) (current : string) (inQuotes : bool)
    (result : list string) : list string :=
  match s with
  | EmptyString => result ++ [current]
  | String c s' =>
      if (c =? quote)%char then
        match s' with
        | String c2 s'' =>
            if inQuotes && (c2 =? quote)%char
            then csv_go s'' (String.append current (String quote EmptyString)) inQuotes result
            else csv_go s' current (negb inQuotes) result
        | EmptyString => csv_go s' current (negb inQuotes) result
        end
      else if (c =? ","%char)%char && negb inQuotes then
        csv_go s' EmptyString inQuotes (result ++ [current])
      else csv_go s' (String.append current (String c EmptyString)) inQuotes result
  end.

Definition parseCSVLine (line : string) : list string :=
  map (fun s => trim (strip_quotes (trim s))) (csv_go line EmptyString false []).

(** *** [\bStep\s*(\d+)\.(\d+)\b] (case-insensitive) and
    [\b(\d+)\.(\d+)\b], leftmost match *)

Definition word_before (prev : option ascii) : bool :=
  match prev with Some p => is_word p | None => false end.

(** [(\d+)\.(\d+)\b] at the start of [s]. *)
Definition digits_dot_digits (s : string) : option (string * string) :=
  let d1 := Tiles.take_while is_digit s in
  if 1 <=? String.length d1 then
    match char_at s (String.length d1) with
    | Some "."%char =>
        let s2 := drop (S (String.length d1)) s in
        let d2 := Tiles.take_while is_digit s2 in
        if 1 <=? String.length d2 then
          match char_at s2 (String.length d2) with
          | Some c => if is_word c then None else Some (d1, d2)
          | None => Some (d1, d2)
          end
        else None
    | _ => None
    end
  else None.

Definition step_re_at (prev : option ascii) (s : string) : option (string * string) :=
  if negb (word_before prev)
     && String.eqb (toLowerCase (String.substring 0 4 s)) "step"
  then digits_dot_digits (trim_start (drop 4 s))
  else None.

Definition num_re_at (prev : option ascii) (s : string) : option (string * string) :=
  match s with
  | String c _ =>
      if negb (word_before prev) && is_digit c then digits_dot_digits s else None
  | EmptyString => None
  end.

Fixpoint re_search (at_ : option ascii -> string -> option (string * string))
    (prev : option ascii) (s : string) : option (string * string) :=
  match s with
  | EmptyString => at_ prev s
  | String c s' =>
      match at_ prev s with
      | Some m => Some m
      | None => re_search at_ (Some c) s'
      end
  end.

(** [text.match(re1) || text.match(re2)], as the two captures. *)
Definition stepMatch (text : string) : option (string * string) :=
  re_search step_re_at None text <|> re_search num_re_at None text.

End Text.

(** ** The lesson importer [parseLessonText] *)

Module Card.
Inductive t := regular | nonsense | hfw.
End Card.

(** [currentSection] *)
Module Sec.
Inductive t := none | quickDrill | hfw | wordCards | sentences | dictation | passage.
End Sec.

(** [dictationSubMode] *)
Module Sub.
Inductive t := none | sounds | real | elements | nonsense | phrases | sentences.
Definition eqb (a b : t) : bool :=
  match a, b with
  | none, none | sounds, sounds | real, real | elements, elements
  | nonsense, nonsense | phrases, phrases | sentences, sentences => true
  | _, _ => false
  end.
End Sub.

(** [DictationSection] *)
Module Dict.
Record t := mk {
  sounds : list string; realWords : list string; wordElements : list string;
  nonsenseWords : list string; phrases : list string; sentences : list string }.
Definition empty : t := mk [] [] [] [] [] [].
Definition push (m : Sub.t) (items : list string) (d : t) : t :=
  match m with
  | Sub.sounds => mk (sounds d ++ items) (realWords d) (wordElements d)
                     (nonsenseWords d) (phrases d) (sentences d)
  | Sub.real => mk (sounds d) (realWords d ++ items) (wordElements d)
                   (nonsenseWords d) (phrases d) (sentences d)
  | Sub.elements => mk (sounds d) (realWords d) (wordElements d ++ items)
                       (nonsenseWords d) (phrases d) (sentences d)
  | Sub.nonsense => mk (sounds d) (realWords d) (wordElements d)
                       (nonsenseWords d ++ items) (phrases d) (sentences d)
  | Sub.phrases => mk (sounds d) (realWords d) (wordElements d)
                      (nonsenseWords d) (phrases d ++ items) (sentences d)
  | Sub.sentences => mk (sounds d) (realWords d) (wordElements d)
                        (nonsenseWords d) (phrases d) (sentences d ++ items)
  | Sub.none => d
  end.
End Dict.

Module Lesson.
Import JS Text.

Record WordCard := mkCard { id : string; text : string; type : Card.t }.

(** The [Partial<Lesson>] built by [parseLessonText]: the list fields and
    [dictation] are always set, [step], [substep] and [passage] may be
    absent. *)
Record Extracted := mkEx {
  step : option string; substep : option string;
  quickDrill : list string; hfwList : list string; wordCards : list WordCard;
  sentences : list string; passage : option string; dictation : Dict.t }.

Definition initial : Extracted := mkEx None None [] [] [] [] None Dict.empty.

Definition set_step v e := mkEx v (substep e) (quickDrill e) (hfwList e)
  (wordCards e) (sentences e) (passage e) (dictation e).
Definition set_substep v e := mkEx (step e) v (quickDrill e) (hfwList e)
  (wordCards e) (sentences e) (passage e) (dictation e).
Definition set_quickDrill v e := mkEx (step e) (substep e) v (hfwList e)
  (wordCards e) (sentences e) (passage e) (dictation e).
Definition set_hfwList v e := mkEx (step e) (substep e) (quickDrill e) v
  (wordCards e) (sentences e) (passage e) (dictation e).
Definition set_wordCards v e := mkEx (step e) (substep e) (quickDrill e)
  (hfwList e) v (sentences e) (passage e) (dictation e).
Definition set_sentences v e := mkEx (step e) (substep e) (quickDrill e)
  (hfwList e) (wordCards e) v (passage e) (dictation e).
Definition set_passage v e := mkEx (step e) (substep e) (quickDrill e)
  (hfwList e) (wordCards e) (sentences e) v (dictation e).
Definition set_dictation v e := mkEx (step e) (substep e) (quickDrill e)
  (hfwList e) (wordCards e) (sentences e) (passage e) v.

(** *** Effects: [generateId] draws from [Math.random]; [str.startsWith]
    on [undefined] throws a [TypeError] *)

Inductive Exn := TypeError.

(** [Exhausted] is reached only when the recursion bound of the model is
    used up (see [LessonFacts.parse_depth_result]). *)
Inductive Res (A : Type) :=
| Ok (a : A) (draws : nat)
| Thrown (e : Exn)
| Exhausted.
Arguments Ok {A}. Arguments Thrown {A}. Arguments Exhausted {A}.

(** The state is the number of [Math.random] draws made so far. *)
Definition M (A : Type) : Type := nat -> Res A.

Definition ret {A} (a : A) : M A := fun n => Ok a n.
Definition bind {A B} (m : M A) (k : A -> M B) : M B :=
  fun n => match m n with
           | Ok a n' => k a n'
           | Thrown e => Thrown e
           | Exhausted => Exhausted
           end.
Definition throw {A} (e : Exn) : M A := fun _ => Thrown e.
Definition exhausted {A} : M A := fun _ => Exhausted.

Notation "x <- m ;; k" := (bind m (fun x => k)) (at level 61, m at next level, right associativity).

Section Importer.

(** [rand n] is [Math.random().toString(36).substr(2, 9)] at the [n]-th
    draw. *)
Variable rand : nat -> string.

Definition generateId : M string := fun n => Ok (rand n) (S n).

Fixpoint mapM {A B} (f : A -> M B) (l : list A) : M (list B) :=
  match l with
  | [] => ret []
  | x :: l' => y <- f x ;; ys <- mapM f l' ;; ret (y :: ys)
  end.

(** [words.map(w => ({ id: generateId(), text: w, type: 'regular' }))] *)
Definition toCards (words : list string) : M (list WordCard) :=
  mapM (fun w => i <- generateId ;; ret (mkCard i w Card.regular)) words.

(** *** CSV path *)

(** The [indices] object: header name to column, a later column winning. *)
Fixpoint lookup (k : string) (m : list (string * nat)) : option nat :=
  match m with
  | [] => None
  | (k', v) :: m' => if String.eqb k k' then Some v else lookup k m'
  end.

Fixpoint build_indices (headers : list string) (i : nat) (m : list (string * nat))
    : list (string * nat) :=
  match headers with
  | [] => m
  | h :: hs => build_indices hs (S i) ((trim (toLowerCase h), i) :: m)
  end.

Definition truthy (o : option string) : bool :=
  match o with Some s => nonempty s | None => false end.

(** The search loop for [dataRow]. *)
Fixpoint findDataRow (target : option string) (lessonPlanIdx : option nat)
    (ls : list string) : Exn + option (list string) :=
  match ls with
  | [] => inr None
  | l :: ls' =>
      let row := parseCSVLine l in
      if length row <? 2 then findDataRow target lessonPlanIdx ls' else
      let col0 := option_map trim (nth_error row 0) in
      let colLessonPlan :=
        match lessonPlanIdx with
        | Some i => option_map trim (nth_error row i)
        | None => Some EmptyString
        end in
      match target with
      | Some tid =>
          if (match col0 with Some c => String.eqb c tid | None => false end)
          then inr (Some row)
          else match colLessonPlan with
               | None => inl TypeError
               | Some cl =>
                   if startsWith cl tid then inr (Some row)
                   else findDataRow target lessonPlanIdx ls'
               end
      | None =>
          if truthy col0 || truthy colLessonPlan then inr (Some row)
          else findDataRow target lessonPlanIdx ls'
      end
  end.

(** [getCol] *)
Fixpoint getCol (indices : list (string * nat)) (dataRow : list string)
    (possibleHeaders : list string) : string :=
  match possibleHeaders with
  | [] => EmptyString
  | h :: hs =>
      match lookup (toLowerCase h) indices with
      | Some idx =>
          match nth_error dataRow idx with
          | Some v => if nonempty v then v else getCol indices dataRow hs
          | None => getCol indices dataRow hs
          end
      | None => getCol indices dataRow hs
      end
  end.

(** [getList] *)
Definition getList indices dataRow possibleHeaders : list string :=
  let raw := getCol indices dataRow possibleHeaders in
  if nonempty raw then filter nonempty (map trim (split sep_comma_nl raw)) else [].

(** *** Freeform path *)

Record FState := mkFS { ex : Extracted; section : Sec.t; subMode : Sub.t }.

(** [line.split(/:/)[1]], run through [extractList] when its trimmed text
    is not empty ([content && content.trim()]). *)
Definition header_items (line : string) : option (list string) :=
  match nth_error (split sep_colon line) 1 with
  | Some content =>
      if nonempty content && nonempty (trim content)
      then Some (extractList content) else None
  | None => None
  end.

(** The explicit sub-section headers of a dictation line, in order. *)
Definition explicit_subMode (lower : string) (cur : Sub.t) : Sub.t :=
  if startsWith lower "sound" || includes lower "sounds:" || includes lower "sounds"
  then Sub.sounds
  else if startsWith lower "real" || includes lower "real words:" || includes lower "words"
  then Sub.real
  else if startsWith lower "element" || includes lower "word elements:" || includes lower "welded"
  then Sub.elements
  else if startsWith lower "nonsense" || includes lower "nonsense words:"
  then Sub.nonsense
  else if startsWith lower "phrase" || includes lower "phrases:"
  then Sub.phrases
  else if startsWith lower "sentence" || includes lower "sentences:"
  then Sub.sentences
  else cur.

(** The numeric headers [1.] to [6.] on the raw line. *)
Definition numeric_subMode (rawLine : string) (cur : Sub.t) : Sub.t :=
  if num_marker "1" rawLine then Sub.sounds
  else if num_marker "2" rawLine then Sub.real
  else if num_marker "3" rawLine then Sub.elements
  else if num_marker "4" rawLine then Sub.nonsense
  else if num_marker "5" rawLine then Sub.phrases
  else if num_marker "6" rawLine then Sub.sentences
  else cur.

(** The [dictation] branch of the loop body. *)
Definition dictation_line (st : FState) (rawLine line lower : string) : FState :=
  let e := ex st in
  let detected0 := explicit_subMode lower (subMode st) in
  let detected :=
    if Sub.eqb detected0 (subMode st) then numeric_subMode rawLine detected0
    else detected0 in
  let contentToProcess :=
    if includes line ":" then
      match colon_capture line with Some c => c | None => EmptyString end
    else strip_num_prefix line in
  let d := dictation e in
  let d' :=
    if nonempty contentToProcess && nonempty (trim contentToProcess) then
      let items := extractList contentToProcess in
      match detected with
      | Sub.sentences =>
          let cleanSentence := strip_num_prefix (trim contentToProcess) in
          if (5 <? String.length cleanSentence)
             && negb (includes (toLowerCase cleanSentence) "sentences")
          then Dict.push Sub.sentences [cleanSentence] d
          else d
      | m => Dict.push m items d
      end
    else d in
  mkFS (set_dictation d' e) Sec.dictation detected.

(** One iteration of [for (let i = 0; i < rawLines.length; i++)]. *)
Definition line_step (st : FState) (rawLine : string) : M FState :=
  let line := cleanLine rawLine in
  let lower := toLowerCase line in
  let e := ex st in
  if includes lower "quick drill" || includes lower "visual drill" || includes lower "part 1" then
    match header_items line with
    | Some items => ret (mkFS (set_quickDrill (quickDrill e ++ items) e) Sec.quickDrill (subMode st))
    | None => ret (mkFS e Sec.quickDrill (subMode st))
    end
  else if includes lower "word cards" || includes lower "word list" || includes lower "part 3"
          || includes lower "words for reading" then
    match header_items line with
    | Some words =>
        newCards <- toCards words ;;
        ret (mkFS (set_wordCards (wordCards e ++ newCards) e) Sec.wordCards (subMode st))
    | None => ret (mkFS e Sec.wordCards (subMode st))
    end
  else if includes lower "sight words" || includes lower "hfw" || includes lower "high frequency" then
    match header_items line with
    | Some items => ret (mkFS (set_hfwList (hfwList e ++ items) e) Sec.hfw (subMode st))
    | None => ret (mkFS e Sec.hfw (subMode st))
    end
  else if includes lower "sentences for reading" || includes lower "part 5"
          || includes lower "reading sentences" then
    ret (mkFS e Sec.sentences (subMode st))
  else if includes lower "dictation" || includes lower "part 8" then
    ret (mkFS e Sec.dictation Sub.none)
  else if includes lower "passage" || includes lower "story" || includes lower "part 9" then
    ret (mkFS e Sec.passage (subMode st))
  else
    match section st with
    | Sec.quickDrill =>
        if negb (includes line ":") && negb (includes (toLowerCase line) "part")
        then ret (mkFS (set_quickDrill (quickDrill e ++ extractList line) e) Sec.quickDrill (subMode st))
        else ret st
    | Sec.hfw =>
        if negb (includes line ":")
        then ret (mkFS (set_hfwList (hfwList e ++ extractList line) e) Sec.hfw (subMode st))
        else ret st
    | Sec.wordCards =>
        if negb (includes line ":") then
          newCards <- toCards (extractList line) ;;
          ret (mkFS (set_wordCards (wordCards e ++ newCards) e) Sec.wordCards (subMode st))
        else ret st
    | Sec.sentences =>
        if (5 <? String.length line) && includes line " " && negb (includes lower "part 6")
        then ret (mkFS (set_sentences (sentences e ++ [line]) e) Sec.sentences (subMode st))
        else ret st
    | Sec.passage =>
        let old := match passage e with Some p => p | None => EmptyString end in
        ret (mkFS (set_passage (Some (old ++ line ++ String "010" (String "010" EmptyString))%string) e)
                  Sec.passage (subMode st))
    | Sec.dictation => ret (dictation_line st rawLine line lower)
    | Sec.none => ret st
    end.

Fixpoint lines_loop (st : FState) (ls : list string) : M FState :=
  match ls with
  | [] => ret st
  | l :: ls' => st' <- line_step st l ;; lines_loop st' ls'
  end.

(** The standard text parser, from [extracted] as the CSV attempt left it. *)
Definition freeform (text : string) (extracted : Extracted) : M Extracted :=
  let e1 :=
    match stepMatch text with
    | Some (s, ss) => set_substep (Some ss) (set_step (Some s) extracted)
    | None => extracted
    end in
  let rawLines := filter nonempty (map trim (split_lines text)) in
  st <- lines_loop (mkFS e1 Sec.none Sub.none) rawLines ;;
  ret (ex st).

(** *** The whole function *)

(** The CSV detector. *)
Definition isCSV (text : string) : bool :=
  let lines := split_lines text in
  let firstLine := trim (match lines with l :: _ => l | [] => EmptyString end) in
  startsWith firstLine ",," || (includes firstLine "," && (2 <? length lines)).

Definition targetIdentifier (targetStep targetSubstep : option string) : option string :=
  match targetStep, targetSubstep with
  | Some a, Some b =>
      if nonempty a && nonempty b then Some (a ++ "." ++ b)%string else None
  | _, _ => None
  end.

(** [parseLessonText], with a bound on the depth of its self-invocation. *)
Fixpoint parseLessonText_go (depth : nat) (text : string)
    (targetStep targetSubstep : option string) : M Extracted :=
  match depth with
  | O => exhausted
  | S depth' =>
      let extracted := initial in
      let lines := split_lines text in
      let firstLine := trim (match lines with l :: _ => l | [] => EmptyString end) in
      if isCSV text then
        let headerRow := parseCSVLine firstLine in
        let indices := build_indices headerRow 0 [] in
        match findDataRow (targetIdentifier targetStep targetSubstep)
                (lookup "lesson plan" indices) (tl lines) with
        | inl exn => throw exn
        | inr None => freeform text extracted
        | inr (Some dataRow) =>
            let col := getCol indices dataRow in
            let lst := getList indices dataRow in
            let hfw := lst ["new sight words"; "sight words"] in
            let qd := lst ["new sound cards"; "pa drill"; "spelling sounds"] in
            let allVocab := lst ["new vocab words"] ++ lst ["vocab from sentences"]
                            ++ lst ["vocab from connected text"] in
            cards <- toCards allVocab ;;
            let rawSentences := col ["sentences"; "reading sentences"] in
            let sents :=
              if nonempty rawSentences
              then filter (fun s => 5 <? String.length s) (map trim (split_lines rawSentences))
              else [] in
            let psg := col ["connected text"; "reader"] in
            let dictationText := col ["dictation"] in
            dict <- (if nonempty dictationText then
                       dd <- parseLessonText_go depth' dictationText None None ;;
                       ret (dictation dd)
                     else ret (dictation extracted)) ;;
            let st := if truthy targetStep then targetStep else None in
            let sst := if truthy targetSubstep then targetSubstep else None in
            ret (mkEx st sst qd hfw cards sents (Some psg) dict)
        end
      else freeform text extracted
  end.

(** A nested call is made only on a single CSV cell, which holds no line
    break and so never reaches the CSV row search again: one level of
    nesting beyond the outer call suffices, and [S (length text)] is at
    least that whenever [text] has a line break. *)
Definition parseLessonText (text : string) (targetStep targetSubstep : option string)
    : M Extracted :=
  parseLessonText_go (S (String.length text)) text targetStep targetSubstep.

End Importer.

(** The Section variable [rand] becomes the first argument. *)
Definition run (rand : nat -> string) (text : string) (ts tss : option string)
    : Res Extracted :=
  parseLessonText rand text ts tss 0.

End Lesson.

(** ** Observations on importer runs *)

Module LessonObs.
Import JS Text Lesson.

(** A computation that always returns normally. *)
Definition total {A} (m : M A) : Prop := forall n, exists a n', m n = Ok a n'.

Definition no_nl (s : string) : bool :=
  forallb (fun c => negb (is_nl c)) (list_ascii_of_string s).

(** Text before the first line break, and the number of line breaks. *)
Definition first_line (s : string) : string :=
  Tiles.take_while (fun c => negb (is_nl c)) s.

Fixpoint count_nl (s : string) : nat :=
  match s with
  | EmptyString => 0
  | String c s' => (if is_nl c then 1 else 0) + count_nl s'
  end.

(** The CSV test as the specification words it: on the first line whose
    trimmed text is not empty. *)
Definition first_nonempty_line (s : string) : string :=
  match filter (fun l => nonempty (trim l)) (split_lines s) with
  | l :: _ => l
  | [] => EmptyString
  end.

Definition spec_isCSV (text : string) : bool :=
  startsWith (trim (first_nonempty_line text)) ",,"
  || (includes (trim (first_line text)) "," && (2 <? length (split_lines text))).

(** A cleaned line that the loop body treats as a section header. *)
Definition is_section_header (lower : string) : bool :=
  includes lower "quick drill" || includes lower "visual drill" || includes lower "part 1"
  || includes lower "word cards" || includes lower "word list" || includes lower "part 3"
  || includes lower "words for reading"
  || includes lower "sight words" || includes lower "hfw" || includes lower "high frequency"
  || includes lower "sentences for reading" || includes lower "part 5"
  || includes lower "reading sentences"
  || includes lower "dictation" || includes lower "part 8"
  || includes lower "passage" || includes lower "story" || includes lower "part 9".

(** Records with the [Math.random] ids of the word cards blanked. *)
Definition erase_card (c : WordCard) : WordCard := mkCard EmptyString (text c) (type c).

Definition erase (e : Extracted) : Extracted :=
  set_wordCards (map erase_card (wordCards e)) e.

Definition erase_res (r : Res Extracted) : Res Extracted :=
  match r with
  | Ok e n => Ok (erase e) n
  | Thrown x => Thrown x
  | Exhausted => Exhausted
  end.

Definition erase_st (st : FState) : FState :=
  mkFS (erase (ex st)) (section st) (subMode st).

Definition erase_fres (r : Res FState) : Res FState :=
  match r with
  | Ok st n => Ok (erase_st st) n
  | Thrown x => Thrown x
  | Exhausted => Exhausted
  end.

(** The cards [toCards] builds from the draws [n], [n+1], ... *)
Fixpoint cards_from (rand : nat -> string) (n : nat) (words : list string) : list WordCard :=
  match words with
  | [] => []
  | w :: ws => mkCard (rand n) w Card.regular :: cards_from rand (S n) ws
  end.

(** The two-row CSV document of the specification, with and without a
    line break after the data row. *)
Definition nl : string := String "010" EmptyString.
Definition q : string := String quote EmptyString.
Definition csv_header : string := "Lesson Plan,New Sight Words,Sentences".
Definition csv_row : string :=
  q ++ "3.1" ++ q ++ "," ++ q ++ "full,pull" ++ q ++ "," ++ q
  ++ "The cat sat. More text here." ++ q.
Definition csv_two_lines : string := csv_header ++ nl ++ csv_row.
Definition csv_two_rows_nl : string := csv_header ++ nl ++ csv_row ++ nl.

(** A CSV whose data row is shorter than its header, the "lesson plan"
    column being past its end. *)
Definition csv_short_row : string := "a,b,Lesson Plan" ++ nl ++ "x,y" ++ nl.

(** A CSV document whose dictation cell holds a word-card line. *)
Definition csv_dict_cards : string :=
  "Lesson Plan,Dictation,x" ++ nl ++ "3.1,Word Cards: cat,y" ++ nl.

(** The column names the CSV path looks up. *)
Definition queried_headers : list string :=
  ["lesson plan"; "new sight words"; "sight words"; "new sound cards"; "pa drill";
   "spelling sounds"; "new vocab words"; "vocab from sentences"; "vocab from connected text";
   "sentences"; "reading sentences"; "connected text"; "reader"; "dictation"].

End LessonObs.

(** ** Observations on tile sequences *)

Module TileText.
Import Tiles.

Definition all_opt {A} (P : A -> Prop) (o : option A) : Prop :=
  forall v, o = Some v -> P v.

(** The rules only ever cut a non-empty prefix off [remaining]. *)
Definition cuts (remaining : string) (tr : TileData * string) : Prop :=
  exists k, 1 <= k /\ snd tr = JS.slice remaining k.

(** *** Text recovered from a tile sequence *)

(** A [space] tile stands for one space character; any other tile for
    its text. *)
Definition tile_contrib (t : TileData) : string :=
  match type t with
  | space => " "
  | _ => text t
  end.

Fixpoint tiles_text (ts : list TileData) : string :=
  match ts with
  | [] => EmptyString
  | t :: ts' => String.append (tile_contrib t) (tiles_text ts')
  end.

(** The opening delimiters of the override rules. *)
Definition is_opener (c : ascii) : bool :=
  existsb (fun d => (d =? c)%char) ["|"; "<"; "["; "{"; "/"]%char.

Definition no_opener (s : string) : bool :=
  forallb (fun c => negb (is_opener c)) (list_ascii_of_string s).

(** Outside the override rules, a tile's text (a space for a [space]
    tile) followed by the new remaining text is the old remaining text. *)
Definition restores (remaining : string) (tr : TileData * string) : Prop :=
  String.append (tile_contrib (fst tr)) (snd tr) = remaining.

(** The override delimiter characters, and a string with them removed. *)
Definition is_delim (c : ascii) : bool :=
  existsb (fun d => (d =? c)%char) ["|"; "<"; ">"; "["; "]"; "{"; "}"; "/"]%char.

Definition strip_delims (s : string) : string :=
  Text.filter_chars (fun c => negb (is_delim c)) s.

Definition letters_spaces_delims (s : string) : bool :=
  forallb (fun c => JS.is_alpha c || (c =? " "%char)%char || is_delim c)
    (list_ascii_of_string s).

(** *** Words with well-formed override groups *)

(** The five override groups, with their delimiters and tile types. *)
Inductive Group := g_syllable | g_suffix | g_vowel | g_consonant | g_welded.

Definition opener (g : Group) : ascii :=
  match g with
  | g_syllable => "|" | g_suffix => "<" | g_vowel => "[" | g_consonant => "{" | g_welded => "/"
  end.

Definition closer (g : Group) : ascii :=
  match g with
  | g_syllable => "|" | g_suffix => ">" | g_vowel => "]" | g_consonant => "}" | g_welded => "/"
  end.

Definition group_type (g : Group) : TileType :=
  match g with
  | g_syllable => syllable | g_suffix => suffix | g_vowel => vowel
  | g_consonant => consonant | g_welded => welded
  end.

Definition plain_char (c : ascii) : bool := JS.is_alpha c || (c =? " ")%char.

(** A word with override groups: single letters and spaces, and groups
    made of an opener, letters and spaces, and the group's closer. *)
Inductive Seg := Plain (c : ascii) | Grp (g : Group) (inner : string).

Definition seg_ok (sg : Seg) : bool :=
  match sg with
  | Plain c => plain_char c
  | Grp _ inner => forallb plain_char (list_ascii_of_string inner)
  end.

Fixpoint segs_string (segs : list Seg) : string :=
  match segs with
  | [] => EmptyString
  | Plain c :: tl => String c (segs_string tl)
  | Grp g inner :: tl =>
      String (opener g) (String.append inner (String (closer g) (segs_string tl)))
  end.

Definition no_delim (s : string) : bool :=
  forallb (fun c => negb (is_delim c)) (list_ascii_of_string s).

(** The word "c{a}t |ab| c[a]t /an/d <re>//" as segments. *)
Definition segs_example : list Seg :=
  [Plain "c"; Grp g_consonant "a"; Plain "t"; Plain " "; Grp g_syllable "ab"; Plain " ";
   Plain "c"; Grp g_vowel "a"; Plain "t"; Plain " "; Grp g_welded "an"; Plain "d"; Plain " ";
   Grp g_suffix "re"; Grp g_welded ""].

End TileText.

(** ** Observations on CSV lines *)

Module CsvObs.
Import JS Text.

(** A string that does not start with white space. *)
Definition no_lead (s : string) : bool :=
  match s with String c _ => negb (is_space c) | EmptyString => true end.

(** A character [csv_go] copies into the current field. *)
Definition csv_char_ok (inq : bool) (x : ascii) : bool :=
  negb ((x =? quote)%char) && (inq || negb ((x =? ","%char)%char)).


(** A field written inside quotes, with each quote doubled. *)
Fixpoint escape_quotes (c : string) : string :=
  match c with
  | EmptyString => EmptyString
  | String x c' =>
      if (x =? quote)%char then String quote (String quote (escape_quotes c'))
      else String x (escape_quotes c')
  end.

Definition quoteCell (c : string) : string :=
  String quote (String.append (escape_quotes c) (String quote EmptyString)).

(** A field that needs no quoting: no comma, no quote, no surrounding
    white space. *)
Definition csv_plain_cell (c : string) : bool :=
  forallb (fun x => negb ((x =? ","%char)%char || (x =? quote)%char)) (list_ascii_of_string c)
  && String.eqb (trim c) c.

(** A field that survives quoting: no surrounding white space and no
    quote as first or last character. *)
Definition csv_quotable_cell (c : string) : bool :=
  String.eqb (trim c) c
  && negb (match char_at c 0 with Some x => (x =? quote)%char | None => false end)
  && negb (match char_at c (String.length c - 1) with
           | Some x => (x =? quote)%char | None => false end).

End CsvObs.

(** ** Invariants of importer results *)

Module LessonInv.
Import JS Text Lesson LessonObs.

(** An item as the list helpers produce it: not empty, no surrounding
    white space. *)
Definition good_item (x : string) : Prop := nonempty x = true /\ trim x = x.

Definition dict_ok (d : Dict.t) : Prop :=
  Forall good_item (Dict.sounds d) /\ Forall good_item (Dict.realWords d) /\
  Forall good_item (Dict.wordElements d) /\ Forall good_item (Dict.nonsenseWords d) /\
  Forall good_item (Dict.phrases d) /\
  Forall (fun s => 5 < String.length s /\ includes (toLowerCase s) "sentences" = false)
    (Dict.sentences d).

Definition lesson_inv (e : Extracted) : Prop :=
  Forall good_item (quickDrill e) /\ Forall good_item (hfwList e) /\
  Forall (fun c => good_item (text c) /\ type c = Card.regular) (wordCards e) /\
  Forall (fun s => 5 < String.length s) (sentences e) /\
  dict_ok (dictation e).

(** A result satisfies [P] if it is a normal return. *)
Definition res_ok {A} (P : A -> nat -> Prop) (r : Res A) : Prop :=
  match r with Ok a n' => P a n' | _ => True end.

Definition prefix_of {A} (l1 l2 : list A) : Prop := exists s, l2 = l1 ++ s.

Definition dict_prefix (d1 d2 : Dict.t) : Prop :=
  prefix_of (Dict.sounds d1) (Dict.sounds d2) /\
  prefix_of (Dict.realWords d1) (Dict.realWords d2) /\
  prefix_of (Dict.wordElements d1) (Dict.wordElements d2) /\
  prefix_of (Dict.nonsenseWords d1) (Dict.nonsenseWords d2) /\
  prefix_of (Dict.phrases d1) (Dict.phrases d2) /\
  prefix_of (Dict.sentences d1) (Dict.sentences d2).

(** The lists of a record only grow from [e1] to [e2]. *)
Definition grows (e1 e2 : Extracted) : Prop :=
  prefix_of (quickDrill e1) (quickDrill e2) /\ prefix_of (hfwList e1) (hfwList e2) /\
  prefix_of (wordCards e1) (wordCards e2) /\ prefix_of (sentences e1) (sentences e2) /\
  dict_prefix (dictation e1) (dictation e2).

(** One loop step or several, from record [e1] after [n1] draws to [e2]
    after [n2] draws: the lists grow, step and substep are kept, and the
    new cards are [toCards] of some words at the draws from [n1] on. *)
Definition step_shape (rand : nat -> string) (e1 : Extracted) (n1 : nat)
    (e2 : Extracted) (n2 : nat) : Prop :=
  grows e1 e2 /\ step e2 = step e1 /\ substep e2 = substep e1 /\
  exists words, wordCards e2 = wordCards e1 ++ cards_from rand n1 words /\
                n2 = n1 + length words.

End LessonInv.

(** ** Tile colours: [getTileColor] *)

Module TileColor.
Import Tiles.

Definition getTileColor (t : TileType) : string :=
  match t with
  | vowel | vowelTeam | rControl => "bg-[#FFD6B5] border-[#EBC2A1] text-black"
  | welded => "bg-[#A6D785] border-[#95C674] text-black"
  | suffix | prefix => "bg-[#FFF275] border-[#EBE064] text-black"
  | syllable => "bg-white border-[#CCCCCC] text-black min-w-[5rem]"
  | space => "bg-transparent border-transparent shadow-none"
  | digraph | consonant => "bg-[#FFF8E7] border-[#E6DFC0] text-black"
  end.

End TileColor.

(** ** The inventory update of the group dashboard: [addToInventory] *)

Module Inventory.

Record HistoryItem := mkHist { h_date : string; h_lessonTitle : string; h_step : string }.

Record StudentProfile := mkStudent {
  id : string; name : string; masteredSounds : list string; masteredHFW : list string;
  attendanceCount : nat; lastSeen : option string; notes : string;
  history : list HistoryItem }.

Record GroupInventory := mkInv { learnedSounds : list string; learnedHFW : list string }.

Inductive Kind := sound | hfw.

Definition includes_item (l : list string) (x : string) : bool := existsb (String.eqb x) l.

(** [items.forEach(item => { if (!list.includes(item)) { list.push(item); changed = true; } })] *)
Definition push_missing (st : list string * bool) (item : string) : list string * bool :=
  let '(l, changed) := st in
  if includes_item l item then (l, changed) else (l ++ [item], true).

(** [items.forEach(i => { if (!mastered.includes(i)) mastered.push(i); })] *)
Definition push_new (l : list string) (i : string) : list string :=
  if includes_item l i then l else l ++ [i].

Definition set_masteredSounds v s := mkStudent (id s) (name s) v (masteredHFW s)
  (attendanceCount s) (lastSeen s) (notes s) (history s).
Definition set_masteredHFW v s := mkStudent (id s) (name s) (masteredSounds s) v
  (attendanceCount s) (lastSeen s) (notes s) (history s).

Definition update_student (sessionStudentIds items : list string) (k : Kind)
    (s : StudentProfile) : StudentProfile :=
  if includes_item sessionStudentIds (id s) then
    match k with
    | sound => set_masteredSounds (fold_left push_new items (masteredSounds s)) s
    | hfw => set_masteredHFW (fold_left push_new items (masteredHFW s)) s
    end
  else s.

(** The new inventory and students handed to [handleUpdateActiveGroup]
    and [handleUpdateStudents]; [None] when nothing is updated.  Both the
    group's list and the students' lists are plain values here: the
    in-place [push] on the copied inventory's arrays is observed only
    through the returned inventory. *)
Definition addToInventory (activeGroup : option GroupInventory) (students : list StudentProfile)
    (sessionStudentIds items : list string) (k : Kind)
    : option (GroupInventory * list StudentProfile) :=
  match activeGroup with
  | None => None
  | Some inv =>
      let list0 := match k with sound => learnedSounds inv | hfw => learnedHFW inv end in
      let '(list1, changed) := fold_left push_missing items (list0, false) in
      let inv' := match k with
                  | sound => mkInv list1 (learnedHFW inv)
                  | hfw => mkInv (learnedSounds inv) list1
                  end in
      if changed then Some (inv', map (update_student sessionStudentIds items k) students)
      else None
  end.

(** The list [type] selects: in the group inventory, and in a student. *)
Definition kind_list (k : Kind) (inv : GroupInventory) : list string :=
  match k with sound => learnedSounds inv | hfw => learnedHFW inv end.

Definition kind_mastered (k : Kind) (s : StudentProfile) : list string :=
  match k with sound => masteredSounds s | hfw => masteredHFW s end.

(** The student update of [handleBriefingStart]:
    [{ ...s, attendanceCount: (s.attendanceCount || 0) + 1, lastSeen: data.date }]
    for the students of the session. *)
Definition set_attendance (date : string) (s : StudentProfile) : StudentProfile :=
  mkStudent (id s) (name s) (masteredSounds s) (masteredHFW s)
    (attendanceCount s + 1) (Some date) (notes s) (history s).

Definition briefing_students (date : string) (studentIds : list string)
    (students : list StudentProfile) : list StudentProfile :=
  map (fun s => if includes_item studentIds (id s) then set_attendance date s else s) students.

(** The student update of [handleCompleteMission]: the session students
    get [{ date: now, lessonTitle, step: `${step}.${substep}` }] in front
    of their history. *)
Definition add_history (h : HistoryItem) (s : StudentProfile) : StudentProfile :=
  mkStudent (id s) (name s) (masteredSounds s) (masteredHFW s)
    (attendanceCount s) (lastSeen s) (notes s) (h :: history s).

Definition complete_students (now title step substep : string)
    (sessionStudentIds : list string) (students : list StudentProfile)
    : list StudentProfile :=
  map (fun s => if includes_item sessionStudentIds (id s)
                then add_history (mkHist now title (step ++ "." ++ substep)) s else s) students.

End Inventory.

(** ** Facts about the string primitives *)

Module StrFacts.

Lemma append_assoc (a b c : string) :
  String.append (String.append a b) c = String.append a (String.append b c).
Proof. induction a as [|x a IH]; simpl; [reflexivity | now rewrite IH]. Qed.

Lemma append_empty_r (a : string) : String.append a EmptyString = a.
Proof. induction a as [|x a IH]; simpl; [reflexivity | now rewrite IH]. Qed.

Lemma substring_0_full (s : string) : String.substring 0 (String.length s) s = s.
Proof. induction s as [|x s IH]; simpl; [reflexivity | now rewrite IH]. Qed.

Lemma substring_split (s : string) (n : nat) :
  n <= String.length s ->
  String.append (String.substring 0 n s)
                (String.substring n (String.length s - n) s) = s.
Proof.
  revert n. induction s as [|x s IH]; intros n Hn; simpl in *.
  - destruct n; reflexivity.
  - destruct n as [|n]; simpl.
    + now rewrite substring_0_full.
    + f_equal. apply IH. lia.
Qed.

Lemma substring_length (s : string) (n m : nat) :
  String.length (String.substring n m s) = Nat.min m (String.length s - n).
Proof.
  revert n m. induction s as [|x s IH]; intros n m; simpl.
  - destruct n, m; reflexivity.
  - destruct n as [|n].
    + destruct m as [|m]; simpl; [reflexivity|]. rewrite IH. f_equal. lia.
    + rewrite IH. reflexivity.
Qed.

Lemma substring2_0 (s : string) (k : nat) :
  JS.substring2 s 0 k = String.substring 0 (Nat.min k (String.length s)) s.
Proof.
  unfold JS.substring2. f_equal; lia.
Qed.

Lemma slice_eq (s : string) (k : nat) :
  JS.slice s k =
  String.substring (Nat.min k (String.length s))
                   (String.length s - Nat.min k (String.length s)) s.
Proof.
  unfold JS.slice, JS.substring2. f_equal; lia.
Qed.

(** [s.substring(0, k) + s.slice(k) = s]. *)
Lemma substring2_slice (s : string) (k : nat) :
  String.append (JS.substring2 s 0 k) (JS.slice s k) = s.
Proof.
  rewrite substring2_0, slice_eq. apply substring_split. lia.
Qed.

Lemma slice_length (s : string) (k : nat) :
  String.length (JS.slice s k) = String.length s - k.
Proof.
  rewrite slice_eq, substring_length. lia.
Qed.

Lemma prefix_append (p s : string) :
  String.prefix p s = true -> exists r, s = String.append p r.
Proof.
  revert s. induction p as [|x p IH]; intros s H; simpl in *.
  - now exists s.
  - destruct s as [|y s]; simpl in H; [discriminate|].
    destruct (ascii_dec x y) as [->|]; [|discriminate].
    destruct (IH s H) as [r ->]. now exists r.
Qed.

Lemma length_append (a b : string) :
  String.length (String.append a b) = String.length a + String.length b.
Proof. induction a as [|x a IH]; simpl; [reflexivity | now rewrite IH]. Qed.

Lemma substring2_append (p r : string) :
  JS.substring2 (String.append p r) 0 (String.length p) = p.
Proof.
  rewrite substring2_0, length_append.
  replace (Nat.min (String.length p) (String.length p + String.length r))
    with (String.length p) by lia.
  clear. induction p as [|x p IH]; simpl; [destruct r; reflexivity | now rewrite IH].
Qed.

(** A matched prefix followed by the slice after it is the whole string. *)
Lemma prefix_slice (p s : string) :
  String.prefix p s = true ->
  String.append p (JS.slice s (String.length p)) = s.
Proof.
  intros H. destruct (prefix_append p s H) as [r Hr].
  rewrite <- (substring2_slice s (String.length p)) at 2.
  f_equal. subst s. symmetry. apply substring2_append.
Qed.

(** Every character of a substring is a character of the string. *)
Lemma forallb_substring (f : ascii -> bool) (s : string) (n m : nat) :
  forallb f (list_ascii_of_string s) = true ->
  forallb f (list_ascii_of_string (String.substring n m s)) = true.
Proof.
  revert n m. induction s as [|x s IH]; intros n m H; simpl in *.
  - destruct n, m; reflexivity.
  - apply andb_prop in H as [Hx Hs]. destruct n as [|n].
    + destruct m as [|m]; simpl; [reflexivity|]. rewrite Hx. now apply IH.
    + now apply IH.
Qed.

Lemma forallb_slice (f : ascii -> bool) (s : string) (k : nat) :
  forallb f (list_ascii_of_string s) = true ->
  forallb f (list_ascii_of_string (JS.slice s k)) = true.
Proof. intros H. now apply forallb_substring. Qed.

End StrFacts.

(** ** Facts about one tokenizer iteration *)

Module TileFacts.
Import Tiles TileText StrFacts.

Lemma all_opt_orelse {A} (P : A -> Prop) (a b : option A) :
  all_opt P a -> all_opt P b -> all_opt P (a <|> b).
Proof. intros Ha Hb v. destruct a; [apply Ha | apply Hb]. Qed.

Lemma all_opt_None {A} (P : A -> Prop) : all_opt P None.
Proof. intros v H; discriminate. Qed.

Lemma override_cuts o cl from k s : all_opt (cuts s) (override o cl from k s).
Proof.
  unfold override. intros v H.
  destruct (JS.startsWith s (String o EmptyString)); [|discriminate].
  destruct (JS.indexOf s cl from) as [close|]; [|discriminate].
  injection H as <-. exists (close + 1). split; [lia | reflexivity].
Qed.

Lemma table_cuts table k s :
  Forall (fun p => 1 <= String.length p) table ->
  all_opt (cuts s) (table_rule table k s).
Proof.
  intros Hall v H. unfold table_rule in H.
  destruct (find _ table) as [p|] eqn:Hf; [|discriminate].
  injection H as <-. apply find_some in Hf as [Hin _].
  rewrite Forall_forall in Hall.
  exists (String.length p). split; [now apply Hall | reflexivity].
Qed.

Lemma tables_nonempty :
  Forall (fun p => 1 <= String.length p) weldedSounds /\
  Forall (fun p => 1 <= String.length p) vowelTeams /\
  Forall (fun p => 1 <= String.length p) rControlled /\
  Forall (fun p => 1 <= String.length p) digraphs.
Proof. repeat split; repeat constructor. Qed.

Lemma length_append_ge (a b : string) : String.length a <= String.length (String.append a b).
Proof. rewrite length_append. lia. Qed.

Lemma tile_step_cuts c rest : cuts (String c rest) (tile_step c rest).
Proof.
  destruct tables_nonempty as (Hw & Hv & Hr & Hd).
  unfold tile_step.
  match goal with |- context [match ?rl with Some r => r | None => _ end] =>
    assert (Hrule : all_opt (cuts (String c rest)) rl) end.
  { repeat apply all_opt_orelse;
      try apply override_cuts; try apply table_cuts; try assumption.
    - destruct (JS.startsWith _ _); [|exact (all_opt_None _)].
      intros v H; injection H as <-. exists 1. split; [lia | reflexivity].
    - destruct (syllableMatch _) as [[inner len]|] eqn:Hs; [|exact (all_opt_None _)].
      intros v H; injection H as <-. exists len. split; [|reflexivity].
      unfold syllableMatch in Hs.
      repeat match type of Hs with context [match ?x with _ => _ end] =>
        destruct x; try discriminate end.
      injection Hs as _ <-. lia.
    - destruct (suffixMatch _) as [m|] eqn:Hs; [|exact (all_opt_None _)].
      intros v H; injection H as <-. exists (String.length m). split; [|reflexivity].
      unfold suffixMatch in Hs.
      repeat match type of Hs with context [match ?x with _ => _ end] =>
        destruct x; try discriminate end.
      injection Hs as <-. simpl. lia.
    - destruct (prefixMatch _) as [m|] eqn:Hs; [|exact (all_opt_None _)].
      intros v H; injection H as <-. exists (String.length m). split; [|reflexivity].
      unfold prefixMatch in Hs.
      destruct (1 <=? String.length (take_while JS.is_alnum (String c rest))) eqn:Hl;
        [|discriminate].
      apply Nat.leb_le in Hl.
      repeat match type of Hs with context [match ?x with _ => _ end] =>
        destruct x; try discriminate end.
      injection Hs as <-. rewrite length_append. simpl. lia. }
  destruct (_ <|> _) as [r|]; [now apply Hrule|].
  unfold single_letter, cuts. destruct (existsb _ _); exists 1; split; (lia || reflexivity).
Qed.

Lemma tile_step_shrinks c rest :
  String.length (snd (tile_step c rest)) < String.length (String c rest).
Proof.
  destruct (tile_step_cuts c rest) as [k [Hk Hr]]. rewrite Hr.
  rewrite slice_length. cbn [String.length]. lia.
Qed.

Lemma tiles_loop_acc n acc s :
  tiles_loop n acc s = (acc ++ fst (tiles_loop n [] s), snd (tiles_loop n [] s)).
Proof.
  revert acc s. induction n as [|n IH]; intros acc s; simpl.
  - now rewrite app_nil_r.
  - destruct s as [|c rest]; simpl; [now rewrite app_nil_r|].
    destruct (tile_step c rest) as [t r].
    rewrite (IH (acc ++ [t])), (IH [t]). simpl. now rewrite <- app_assoc.
Qed.

(** Any fuel at least the length of the input gives the same run. *)
Lemma tiles_loop_fuel n m acc s :
  String.length s <= n -> String.length s <= m ->
  tiles_loop n acc s = tiles_loop m acc s.
Proof.
  revert m acc s. induction n as [|n IH]; intros m acc s Hn Hm.
  - destruct s; simpl in Hn; [|lia]. destruct m; reflexivity.
  - destruct s as [|c rest].
    + destruct m; reflexivity.
    + destruct m as [|m]; simpl in Hm; [lia|]. simpl.
      pose proof (tile_step_shrinks c rest) as Hsh.
      destruct (tile_step c rest) as [t r]. simpl in Hsh, Hn.
      apply IH; lia.
Qed.

(** With enough fuel the loop only stops on the empty string. *)
Lemma tiles_loop_consumes n acc s :
  String.length s <= n -> snd (tiles_loop n acc s) = EmptyString.
Proof.
  revert acc s. induction n as [|n IH]; intros acc s Hn.
  - destruct s; simpl in Hn; [reflexivity | lia].
  - destruct s as [|c rest]; [reflexivity|]. simpl.
    pose proof (tile_step_shrinks c rest) as Hsh.
    destruct (tile_step c rest) as [t r]. simpl in Hsh, Hn.
    apply IH. lia.
Qed.

Lemma tiles_text_app (a b : list TileData) :
  tiles_text (a ++ b) = String.append (tiles_text a) (tiles_text b).
Proof.
  induction a as [|t a IH]; simpl; [reflexivity|].
  now rewrite IH, append_assoc.
Qed.

Lemma take_while_prefix p s : String.prefix (take_while p s) s = true.
Proof.
  induction s as [|c s IH]; simpl; [reflexivity|].
  destruct (p c); simpl; [|reflexivity].
  destruct (ascii_dec c c); [exact IH | congruence].
Qed.

Lemma take_while_get_prefix p s x :
  String.get (String.length (take_while p s)) s = Some x ->
  String.prefix (String.append (take_while p s) (String x EmptyString)) s = true.
Proof.
  induction s as [|c s IH]; simpl; [discriminate|].
  destruct (p c); simpl.
  - intros H. destruct (ascii_dec c c); [now apply IH | congruence].
  - intros H. injection H as ->. destruct (ascii_dec x x); [|congruence].
    destruct s; reflexivity.
Qed.

Lemma startsWith_char c rest o :
  JS.startsWith (String c rest) (String o EmptyString) = true -> c = o.
Proof.
  unfold JS.startsWith. simpl. destruct (ascii_dec o c); congruence.
Qed.

Lemma override_not_opener o cl from k c rest :
  c <> o -> override o cl from k (String c rest) = None.
Proof.
  intros Hne. unfold override.
  destruct (JS.startsWith _ _) eqn:E; [|reflexivity].
  apply startsWith_char in E. congruence.
Qed.

Lemma table_restores table k s :
  k <> space -> all_opt (restores s) (table_rule table k s).
Proof.
  intros Hk v H. unfold table_rule in H.
  destruct (find _ table) as [p|]; [|discriminate].
  injection H as <-. unfold restores, tile_contrib. simpl.
  destruct k; try (apply substring2_slice); congruence.
Qed.

Lemma tile_step_restores c rest :
  is_opener c = false -> restores (String c rest) (tile_step c rest).
Proof.
  intros Hc.
  assert (Hne : forall o, In o ["|"; "<"; "["; "{"; "/"]%char -> c <> o).
  { intros o Ho ->. unfold is_opener in Hc.
    assert (existsb (fun d => (d =? o)%char) ["|"; "<"; "["; "{"; "/"]%char = true)
      as Hx by (apply existsb_exists; exists o; split; [exact Ho | apply Ascii.eqb_refl]).
    congruence. }
  unfold tile_step.
  rewrite (override_not_opener "<" _ _ _ c rest) by (apply Hne; simpl; tauto).
  rewrite (override_not_opener "[" _ _ _ c rest) by (apply Hne; simpl; tauto).
  rewrite (override_not_opener "{" _ _ _ c rest) by (apply Hne; simpl; tauto).
  rewrite (override_not_opener "/" _ _ _ c rest) by (apply Hne; simpl; tauto).
  match goal with |- context [match ?rl with Some r => r | None => _ end] =>
    assert (Hrule : all_opt (restores (String c rest)) rl) end.
  { repeat apply all_opt_orelse;
      try exact (all_opt_None _); try (apply table_restores; discriminate).
    - destruct (JS.startsWith _ _) eqn:E; [|exact (all_opt_None _)].
      intros v H; injection H as <-. unfold restores; simpl.
      exact (prefix_slice " " (String c rest) E).
    - unfold syllableMatch.
      destruct (c =? "|"%char)%char eqn:E; [|exact (all_opt_None _)].
      apply Ascii.eqb_eq in E. exfalso. apply (Hne "|"%char); simpl; tauto.
    - destruct (suffixMatch _) as [m|] eqn:Hs; [|exact (all_opt_None _)].
      intros v H; injection H as <-. unfold restores, tile_contrib.
      cbn [fst snd type text]. apply prefix_slice. unfold suffixMatch in Hs.
      destruct (c =? "-"%char)%char eqn:E; [|discriminate].
      apply Ascii.eqb_eq in E; subst c.
      destruct (1 <=? _); [|discriminate]. injection Hs as <-.
      simpl. destruct (ascii_dec "-" "-"); [|congruence].
      apply take_while_prefix.
    - destruct (prefixMatch _) as [m|] eqn:Hs; [|exact (all_opt_None _)].
      intros v H; injection H as <-. unfold restores, tile_contrib.
      cbn [fst snd type text]. apply prefix_slice. unfold prefixMatch in Hs.
      destruct (1 <=? _); [|discriminate].
      destruct (JS.char_at _ _) as [x|] eqn:Hg; [|discriminate].
      unfold JS.char_at in Hg.
      assert (Hx : x = "-"%char).
      { destruct x as [[] [] [] [] [] [] [] []]; try discriminate; reflexivity. }
      subst x. injection Hs as <-. now apply (take_while_get_prefix JS.is_alnum (String c rest)). }
  destruct (_ <|> _) as [r|]; [now apply Hrule|].
  unfold single_letter. destruct (existsb _ _); unfold restores; simpl;
    exact (prefix_slice (String c EmptyString) (String c rest)
             ltac:(simpl; destruct (ascii_dec c c); [destruct rest; reflexivity | congruence])).
Qed.

Lemma tiles_loop_text n acc s :
  String.length s <= n -> no_opener s = true ->
  tiles_text (fst (tiles_loop n acc s)) = String.append (tiles_text acc) s.
Proof.
  revert acc s. induction n as [|n IH]; intros acc s Hn Hs.
  - destruct s; simpl in Hn; [|lia]. simpl. now rewrite append_empty_r.
  - destruct s as [|c rest]; simpl; [now rewrite append_empty_r|].
    unfold no_opener in Hs. simpl in Hs. apply andb_prop in Hs as [Hc Hrest].
    apply negb_true_iff in Hc.
    pose proof (tile_step_shrinks c rest) as Hsh.
    pose proof (tile_step_cuts c rest) as [k [_ Hk]].
    pose proof (tile_step_restores c rest Hc) as Hre.
    destruct (tile_step c rest) as [t r]. unfold restores in Hre.
    simpl in Hsh, Hk, Hre, Hn.
    rewrite IH by (try lia; subst r; apply forallb_slice; simpl; now rewrite Hc, Hrest).
    rewrite tiles_text_app, append_assoc. simpl. rewrite append_empty_r.
    now rewrite Hre.
Qed.

(** *** The welded override on [/t/rest] *)

Lemma substring_0_append (p r : string) :
  String.substring 0 (String.length p) (String.append p r) = p.
Proof. induction p as [|x p IH]; simpl; [destruct r; reflexivity | now rewrite IH]. Qed.

Lemma substring_append_offset (p r : string) (n m : nat) :
  String.substring (String.length p + n) m (String.append p r) = String.substring n m r.
Proof. induction p as [|x p IH]; simpl; [reflexivity | exact IH]. Qed.

Lemma indexOf_go_append c from pos t r :
  from <= pos ->
  forallb (fun x => negb (x =? c)%char) (list_ascii_of_string t) = true ->
  JS.indexOf_go c from pos (String.append t (String c r)) = Some (pos + String.length t).
Proof.
  revert pos. induction t as [|x t IH]; intros pos Hp Ht; simpl.
  - apply Nat.leb_le in Hp. rewrite Hp, Ascii.eqb_refl. simpl. f_equal. lia.
  - simpl in Ht. apply andb_prop in Ht as [Hx Ht]. apply negb_true_iff in Hx.
    rewrite Hx, andb_false_r. rewrite IH by (lia || exact Ht). f_equal. lia.
Qed.

Lemma welded_override_some t rest :
  forallb (fun x => negb (x =? "/")%char) (list_ascii_of_string t) = true ->
  override "/"%char "/"%char 1 welded (String "/" (String.append t (String "/" rest)))
  = Some (mkTile t welded, rest).
Proof.
  intros Ht. unfold override.
  assert (Hs : JS.startsWith (String "/" (String.append t (String "/" rest)))
                 (String "/" EmptyString) = true).
  { unfold JS.startsWith. simpl. destruct (String.append t _); reflexivity. }
  rewrite Hs. unfold JS.indexOf. cbn [JS.indexOf_go]. rewrite Ascii.eqb_refl, andb_false_l.
  rewrite indexOf_go_append by (lia || exact Ht).
  unfold JS.slice, JS.substring2. cbn [String.length].
  rewrite length_append. cbn [String.length].
  set (T := String.length t). set (R := String.length rest).
  replace (Nat.min 1 (S (T + S R))) with 1 by lia.
  replace (Nat.min (1 + T) (S (T + S R))) with (1 + T) by lia.
  replace (Nat.min 1 (1 + T)) with 1 by lia.
  replace (Nat.max 1 (1 + T) - 1) with T by lia.
  replace (Nat.min (1 + T + 1) (S (T + S R))) with (2 + T) by lia.
  replace (Nat.min (S (T + S R)) (S (T + S R))) with (S (T + S R)) by lia.
  replace (Nat.min (2 + T) (S (T + S R))) with (2 + T) by lia.
  replace (Nat.max (2 + T) (S (T + S R)) - (2 + T)) with R by lia.
  cbn [String.substring]. unfold T. rewrite substring_0_append.
  replace (2 + String.length t) with (S (String.length t + 1)) by lia.
  cbn [String.substring]. rewrite substring_append_offset. cbn [String.substring]. unfold R.
  now rewrite substring_0_full.
Qed.

Lemma welded_override_step t rest :
  forallb (fun x => negb (x =? "/")%char) (list_ascii_of_string t) = true ->
  tile_step "/" (String.append t (String "/" rest)) = (mkTile t welded, rest).
Proof.
  intros Ht. unfold tile_step. rewrite (welded_override_some t rest Ht).
  reflexivity.
Qed.

End TileFacts.

(** ** Facts about the importer *)

Module LessonFacts.
Import JS Text Lesson LessonObs StrFacts.

Section WithRand.
Variable rand : nat -> string.

Lemma total_ret {A} (a : A) : total (ret a).
Proof. intros n. now exists a, n. Qed.

Lemma total_bind {A B} (m : M A) (k : A -> M B) :
  total m -> (forall a, total (k a)) -> total (bind m k).
Proof.
  intros Hm Hk n. unfold bind. destruct (Hm n) as [a [n' ->]]. apply Hk.
Qed.

Lemma total_toCards words : total (toCards rand words).
Proof.
  unfold toCards. induction words as [|w ws IH]; simpl.
  - apply total_ret.
  - apply total_bind; [apply total_bind; [intros n; now exists (rand n), (S n) | intros; apply total_ret]|].
    intros c. apply total_bind; [exact IH | intros; apply total_ret].
Qed.

Lemma total_line_step st l : total (line_step rand st l).
Proof.
  unfold line_step.
  repeat match goal with
  | |- total (if ?b then _ else _) => destruct b
  | |- total (match ?x with _ => _ end) => destruct x
  | |- total (ret _) => apply total_ret
  | |- total (bind _ _) => apply total_bind; [apply total_toCards | intros; apply total_ret]
  end.
Qed.

Lemma total_lines_loop st ls : total (lines_loop rand st ls).
Proof.
  revert st. induction ls as [|l ls IH]; intros st; simpl.
  - apply total_ret.
  - apply total_bind; [apply total_line_step | intros; apply IH].
Qed.

Lemma total_freeform text e : total (freeform rand text e).
Proof.
  unfold freeform. apply total_bind; [apply total_lines_loop | intros; apply total_ret].
Qed.

End WithRand.

(** *** Line breaks in lines and cells *)

Lemma no_nl_append a b : no_nl (String.append a b) = no_nl a && no_nl b.
Proof.
  induction a as [|c a IH]; simpl; [reflexivity|]. unfold no_nl in *. simpl.
  rewrite IH. now rewrite andb_assoc.
Qed.

Lemma split_lines_single_go s cur acc :
  no_nl s = true ->
  split_go (sep_char is_nl) s 0 cur acc = rev (String.append cur s :: acc).
Proof.
  revert cur. induction s as [|c s IH]; intros cur H; simpl.
  - now rewrite append_empty_r.
  - unfold no_nl in H. simpl in H. apply andb_prop in H as [Hc Hs].
    apply negb_true_iff in Hc. rewrite Hc. rewrite IH by exact Hs.
    now rewrite append_assoc.
Qed.

Lemma split_lines_single s : no_nl s = true -> split_lines s = [s].
Proof. intros H. unfold split_lines, split. now rewrite split_lines_single_go. Qed.

Lemma split_lines_go_no_nl s skip cur acc :
  no_nl cur = true -> Forall (fun l => no_nl l = true) acc ->
  Forall (fun l => no_nl l = true) (split_go (sep_char is_nl) s skip cur acc).
Proof.
  revert skip cur acc. induction s as [|c s IH]; intros skip cur acc Hc Ha; simpl.
  - apply Forall_app. split; [now apply Forall_rev | now constructor].
  - destruct skip as [|k].
    + simpl. destruct (is_nl c) eqn:E.
      * apply IH; [reflexivity | now constructor].
      * apply IH; [|exact Ha]. rewrite no_nl_append, Hc. unfold no_nl. simpl.
        now rewrite E.
    + now apply IH.
Qed.

Lemma split_lines_no_nl s : Forall (fun l => no_nl l = true) (split_lines s).
Proof. apply split_lines_go_no_nl; [reflexivity | constructor]. Qed.

Lemma no_nl_substring s n m : no_nl s = true -> no_nl (String.substring n m s) = true.
Proof. apply forallb_substring. Qed.

Lemma no_nl_trim_start s : no_nl s = true -> no_nl (trim_start s) = true.
Proof.
  induction s as [|c s IH]; simpl; [auto|]. intros H.
  destruct (is_space c); [|exact H]. apply IH.
  unfold no_nl in H. simpl in H. now apply andb_prop in H as [_ Hs].
Qed.

Lemma no_nl_rev_string s : no_nl s = true -> no_nl (rev_string s) = true.
Proof.
  unfold no_nl, rev_string. rewrite list_ascii_of_string_of_list_ascii.
  rewrite !forallb_forall. intros H x Hx. apply H. now apply in_rev.
Qed.

Lemma no_nl_trim s : no_nl s = true -> no_nl (trim s) = true.
Proof.
  intros H. unfold trim. apply no_nl_rev_string, no_nl_trim_start,
    no_nl_rev_string, no_nl_trim_start, H.
Qed.

Lemma no_nl_strip_quotes s : no_nl s = true -> no_nl (strip_quotes s) = true.
Proof.
  intros H. unfold strip_quotes.
  assert (H1 : no_nl (match s with
                      | String c s' => if (c =? quote)%char then s' else s
                      | EmptyString => s end) = true).
  { destruct s as [|c s']; [exact H|]. destruct (c =? quote)%char; [|exact H].
    unfold no_nl in *. simpl in H. now apply andb_prop in H as [_ H]. }
  destruct (char_at _ _) as [c|]; [|exact H1].
  destruct (_ && _); [now apply no_nl_substring | exact H1].
Qed.

Lemma csv_go_no_nl s cur inq res :
  no_nl s = true -> no_nl cur = true -> Forall (fun l => no_nl l = true) res ->
  Forall (fun l => no_nl l = true) (csv_go s cur inq res).
Proof.
  revert cur inq res.
  induction s as [s IH] using (well_founded_induction
    (Wf_nat.well_founded_ltof _ String.length)).
  intros cur inq res Hs Hc Hr.
  destruct s as [|c s']; simpl.
  - apply Forall_app. split; [exact Hr | now constructor].
  - unfold no_nl in Hs. simpl in Hs. apply andb_prop in Hs as [Hcc Hs'].
    apply negb_true_iff in Hcc. fold (no_nl s') in Hs'.
    assert (Hlt : String.length s' < String.length (String c s')) by (simpl; lia).
    destruct (c =? quote)%char.
    + destruct s' as [|c2 s''].
      * now apply IH.
      * destruct (inq && (c2 =? quote)%char).
        -- apply IH; [unfold Wf_nat.ltof; simpl in *; lia | |rewrite no_nl_append, Hc; reflexivity | exact Hr].
           unfold no_nl in Hs'. simpl in Hs'. now apply andb_prop in Hs' as [_ H].
        -- now apply IH.
    + destruct ((c =? ","%char)%char && negb inq).
      * apply IH; [exact Hlt | exact Hs' | reflexivity |
                   apply Forall_app; split; [exact Hr | now constructor]].
      * apply IH; [exact Hlt | exact Hs' | | exact Hr]. rewrite no_nl_append, Hc.
        unfold no_nl. simpl. now rewrite Hcc.
Qed.

Lemma parseCSVLine_no_nl l :
  no_nl l = true -> Forall (fun c => no_nl c = true) (parseCSVLine l).
Proof.
  intros H. unfold parseCSVLine. apply Forall_map.
  eapply Forall_impl; [|apply csv_go_no_nl; [exact H | reflexivity | constructor]].
  intros a Ha. simpl in Ha. apply no_nl_trim, no_nl_strip_quotes, no_nl_trim, Ha.
Qed.

Lemma findDataRow_row t lp ls row :
  findDataRow t lp ls = inr (Some row) -> exists l, In l ls /\ row = parseCSVLine l.
Proof.
  induction ls as [|l ls IH]; simpl; [discriminate|].
  intros H.
  destruct (length (parseCSVLine l) <? 2).
  - destruct (IH H) as [l' [Hin ->]]. exists l'. tauto.
  - repeat match type of H with
    | context [match ?x with _ => _ end] => destruct x
    end; try discriminate;
    try (injection H as <-; now exists l; split; [left|]);
    destruct (IH H) as [l' [Hin ->]]; exists l'; tauto.
Qed.

Lemma getCol_no_nl indices row hs :
  Forall (fun c => no_nl c = true) row -> no_nl (getCol indices row hs) = true.
Proof.
  intros Hrow. induction hs as [|h hs IH]; simpl; [reflexivity|].
  destruct (lookup _ indices) as [idx|]; [|exact IH].
  destruct (nth_error row idx) as [v|] eqn:E; [|exact IH].
  destruct (nonempty v); [|exact IH].
  apply nth_error_In in E. rewrite Forall_forall in Hrow. now apply Hrow.
Qed.

(** A text without line break is never read as CSV rows: the call is the
    freeform pass. *)
Lemma parse_single_line rand f s ts tss :
  no_nl s = true ->
  parseLessonText_go rand (S f) s ts tss = freeform rand s initial.
Proof.
  intros H. simpl. rewrite (split_lines_single s H). simpl.
  destruct (isCSV s); reflexivity.
Qed.

Lemma dataRow_cells_no_nl text t lp row :
  findDataRow t lp (tl (split_lines text)) = inr (Some row) ->
  Forall (fun c => no_nl c = true) row.
Proof.
  intros H. destruct (findDataRow_row _ _ _ _ H) as [l [Hin ->]].
  apply parseCSVLine_no_nl.
  pose proof (split_lines_no_nl text) as Hall. rewrite Forall_forall in Hall.
  apply Hall. destruct (split_lines text); [contradiction | now right].
Qed.

(** Nesting depth 2 (the outer call and one self-invocation) already
    gives the whole behaviour. *)
Lemma parse_depth_ge rand d1 d2 text ts tss :
  1 <= d1 -> 1 <= d2 ->
  parseLessonText_go rand (S d1) text ts tss = parseLessonText_go rand (S d2) text ts tss.
Proof.
  intros H1 H2. cbn [parseLessonText_go].
  destruct (isCSV text); [|reflexivity].
  destruct (findDataRow _ _ _) as [e|[row|]] eqn:Hf; try reflexivity.
  pose proof (dataRow_cells_no_nl _ _ _ _ Hf) as Hrow.
  pose proof (getCol_no_nl (build_indices
     (parseCSVLine (trim match split_lines text with l :: _ => l | [] => EmptyString end)) 0 [])
     row ["dictation"] Hrow) as Hd.
  destruct d1 as [|f1]; [lia|]. destruct d2 as [|f2]; [lia|].
  rewrite (parse_single_line rand f1 _ None None Hd).
  rewrite (parse_single_line rand f2 _ None None Hd).
  reflexivity.
Qed.

Lemma parse_depth_result rand d text ts tss n :
  1 <= d ->
  parseLessonText_go rand (S d) text ts tss n = Thrown TypeError \/
  exists a n', parseLessonText_go rand (S d) text ts tss n = Ok a n'.
Proof.
  intros Hd1. cbn [parseLessonText_go].
  destruct (isCSV text); [|right; apply (total_freeform rand text initial n)].
  destruct (findDataRow _ _ _) as [[]|[row|]] eqn:Hf;
    [now left | | right; apply (total_freeform rand text initial n)].
  right. pose proof (dataRow_cells_no_nl _ _ _ _ Hf) as Hrow.
  pose proof (getCol_no_nl (build_indices
     (parseCSVLine (trim match split_lines text with l :: _ => l | [] => EmptyString end)) 0 [])
     row ["dictation"] Hrow) as Hd.
  destruct d as [|f]; [lia|].
  rewrite (parse_single_line rand f _ None None Hd).
  revert n. apply total_bind; [apply total_toCards | intros cards].
  apply total_bind; [|intros; apply total_ret].
  destruct (nonempty _); [|apply total_ret].
  apply total_bind; [apply total_freeform | intros; apply total_ret].
Qed.

End LessonFacts.

(** ** The CSV test on the first line *)

Module DetectFacts.
Import JS Text Lesson LessonObs StrFacts.

Lemma split_lines_go_first s cur acc :
  exists rest,
    split_go (sep_char is_nl) s 0 cur acc = rev acc ++ String.append cur (first_line s) :: rest /\
    length (split_go (sep_char is_nl) s 0 cur acc) = length acc + S (count_nl s).
Proof.
  revert cur acc. induction s as [|c s IH]; intros cur acc; simpl.
  - exists []. rewrite append_empty_r, length_app, length_rev. simpl. split; [reflexivity | lia].
  - unfold first_line. simpl. fold (first_line s). destruct (is_nl c) eqn:E; simpl.
    + destruct (IH EmptyString (cur :: acc)) as [rest [H1 H2]]. simpl in H1.
      exists (first_line s :: rest). split.
      * rewrite H1, <- app_assoc, append_empty_r. reflexivity.
      * rewrite H2. simpl. lia.
    + destruct (IH (String.append cur (String c EmptyString)) acc) as [rest [H1 H2]].
      exists rest. split; [rewrite H1, append_assoc; reflexivity | exact H2].
Qed.

Lemma split_lines_first s :
  (match split_lines s with l :: _ => l | [] => EmptyString end) = first_line s.
Proof.
  destruct (split_lines_go_first s EmptyString []) as [rest [H _]].
  unfold split_lines, split. rewrite H. reflexivity.
Qed.

Lemma split_lines_length s : length (split_lines s) = S (count_nl s).
Proof.
  destruct (split_lines_go_first s EmptyString []) as [rest [_ H]].
  unfold split_lines, split. rewrite H. reflexivity.
Qed.

Lemma isCSV_first_line text :
  isCSV text =
  startsWith (trim (first_line text)) ",,"
  || (includes (trim (first_line text)) "," && (2 <=? count_nl text)).
Proof.
  unfold isCSV. rewrite split_lines_first, split_lines_length. reflexivity.
Qed.

Lemma not_isCSV_freeform rand d text ts tss :
  isCSV text = false ->
  parseLessonText_go rand (S d) text ts tss = freeform rand text initial.
Proof. intros H. cbn [parseLessonText_go]. now rewrite H. Qed.

End DetectFacts.

(** ** Word-card ids are the only trace of [Math.random] *)

Module EraseFacts.
Import JS Text Lesson LessonObs.

Lemma toCards_eq rand words n :
  toCards rand words n = Ok (cards_from rand n words) (n + length words).
Proof.
  revert n. unfold toCards. induction words as [|w ws IH]; intros n; simpl.
  - unfold ret. now rewrite Nat.add_0_r.
  - unfold bind at 1. unfold bind at 1. unfold generateId, ret. simpl.
    unfold bind. rewrite IH. unfold ret. now rewrite Nat.add_succ_r.
Qed.

Lemma erase_cards_from rand n words :
  map erase_card (cards_from rand n words) = map (fun w => mkCard EmptyString w Card.regular) words.
Proof.
  revert n. induction words as [|w ws IH]; intros n; simpl; [reflexivity|]. now rewrite IH.
Qed.

Lemma dictation_erase e : dictation (erase e) = dictation e.
Proof. reflexivity. Qed.

Section TwoRand.
Variables rand1 rand2 : nat -> string.

Lemma line_step_erase st1 st2 l n :
  erase_st st1 = erase_st st2 ->
  erase_fres (line_step rand1 st1 l n) = erase_fres (line_step rand2 st2 l n).
Proof.
  destruct st1 as [[a1 b1 c1 d1 w1 f1 g1 h1] s1 m1].
  destruct st2 as [[a2 b2 c2 d2 w2 f2 g2 h2] s2 m2].
  unfold erase_st, erase, set_wordCards. simpl. intros H.
  injection H as <- <- <- <- Hw <- <- <- <- <-.
  unfold line_step. cbn [ex section subMode].
  destruct s1; repeat match goal with
  | |- context [if ?b then _ else _] => destruct b
  | |- context [match header_items ?x with _ => _ end] => destruct (header_items x)
  end.
  all: unfold bind, ret; rewrite ?toCards_eq.
  all: unfold dictation_line, erase_fres, erase_st, erase, set_quickDrill, set_hfwList,
    set_wordCards, set_sentences, set_passage, set_dictation.
  all: cbn [ex section subMode step substep quickDrill
    hfwList wordCards sentences passage dictation].
  all: rewrite ?map_app, ?Hw, ?erase_cards_from; reflexivity.
Qed.

Lemma lines_loop_erase ls st1 st2 n :
  erase_st st1 = erase_st st2 ->
  erase_fres (lines_loop rand1 st1 ls n) = erase_fres (lines_loop rand2 st2 ls n).
Proof.
  revert st1 st2 n. induction ls as [|l ls IH]; intros st1 st2 n H; simpl.
  - unfold ret. cbn [erase_fres]. now rewrite H.
  - unfold bind. pose proof (line_step_erase st1 st2 l n H) as E.
    destruct (line_step rand1 st1 l n) as [a1 k1| |], (line_step rand2 st2 l n) as [a2 k2| |];
      cbn [erase_fres] in E; try discriminate E; try reflexivity.
    + assert (Ea : erase_st a1 = erase_st a2) by congruence.
      assert (k2 = k1) as -> by congruence. now apply IH.
    + repeat match goal with x : Exn |- _ => destruct x end; reflexivity.
Qed.

Lemma freeform_erase text e n :
  erase_res (freeform rand1 text e n) = erase_res (freeform rand2 text e n).
Proof.
  unfold freeform, bind.
  match goal with
  | |- context [lines_loop rand1 ?st ?ls n] =>
      pose proof (lines_loop_erase ls st st n eq_refl) as E
  end.
  destruct (lines_loop rand1 _ _ n) as [a1 k1| |], (lines_loop rand2 _ _ n) as [a2 k2| |];
    cbn [erase_fres] in E; try discriminate E; try reflexivity.
  - assert (Ea : erase_st a1 = erase_st a2) by congruence.
    assert (k2 = k1) as -> by congruence.
    unfold ret. cbn [erase_res]. f_equal. apply (f_equal ex) in Ea. exact Ea.
  - repeat match goal with x : Exn |- _ => destruct x end; reflexivity.
Qed.

Lemma parse_go_erase d text ts tss n :
  erase_res (parseLessonText_go rand1 d text ts tss n)
  = erase_res (parseLessonText_go rand2 d text ts tss n).
Proof.
  revert text ts tss n. induction d as [|d IH]; intros text ts tss n; [reflexivity|].
  cbn [parseLessonText_go].
  destruct (isCSV text); [|apply freeform_erase].
  destruct (findDataRow _ _ _) as [x|[row|]]; [reflexivity | | apply freeform_erase].
  unfold bind. rewrite !toCards_eq.
  destruct (nonempty _).
  -     match goal with
    | |- context [parseLessonText_go rand1 d ?t None None ?k] =>
        pose proof (IH t None None k) as E
    end.
    destruct (parseLessonText_go rand1 d _ None None _) as [a1 k1| |],
             (parseLessonText_go rand2 d _ None None _) as [a2 k2| |];
      cbn [erase_res] in E; try discriminate E; try reflexivity.
    + assert (Ea : erase a1 = erase a2) by congruence.
      assert (k2 = k1) as -> by congruence.
      apply (f_equal dictation) in Ea.
      rewrite !dictation_erase in Ea. unfold ret. cbn [erase_res]. rewrite Ea.
      unfold erase, set_wordCards. cbn [wordCards]. now rewrite !erase_cards_from.

    + repeat match goal with x : Exn |- _ => destruct x end; reflexivity.
  - unfold ret. cbn [erase_res]. unfold erase, set_wordCards. cbn [wordCards].
    now rewrite !erase_cards_from.
Qed.

End TwoRand.

End EraseFacts.

(** ** Tile text of words with override groups *)

Module GroupFacts.
Import Tiles TileText StrFacts TileFacts.

Lemma list_ascii_app a b :
  list_ascii_of_string (String.append a b) = list_ascii_of_string a ++ list_ascii_of_string b.
Proof. induction a as [|x a IH]; simpl; [reflexivity | now rewrite IH]. Qed.

Lemma strip_app a b : strip_delims (String.append a b) = String.append (strip_delims a) (strip_delims b).
Proof.
  unfold strip_delims. induction a as [|x a IH]; simpl; [reflexivity|].
  destruct (negb (is_delim x)); simpl; now rewrite IH.
Qed.

Lemma strip_no_delim s : no_delim s = true -> strip_delims s = s.
Proof.
  unfold no_delim, strip_delims. induction s as [|x s IH]; simpl; [reflexivity|].
  intros H. apply andb_prop in H as [H1 H2]. rewrite H1. now rewrite IH.
Qed.

Lemma is_delim_lower x : is_delim (JS.lower_char x) = is_delim x.
Proof. destruct x as [[] [] [] [] [] [] [] []]; reflexivity. Qed.

Lemma delim_opener x : is_delim x = false -> is_opener x = false.
Proof. destruct x as [[] [] [] [] [] [] [] []]; first [reflexivity | discriminate]. Qed.

Lemma plain_not_delim x : plain_char x = true -> is_delim x = false.
Proof. destruct x as [[] [] [] [] [] [] [] []]; first [reflexivity | discriminate]. Qed.

Lemma alnum_not_delim x : JS.is_alnum x = true -> is_delim x = false.
Proof. destruct x as [[] [] [] [] [] [] [] []]; first [reflexivity | discriminate]. Qed.

Lemma no_delim_lower s : no_delim (JS.toLowerCase s) = no_delim s.
Proof.
  unfold no_delim. induction s as [|x s IH]; simpl; [reflexivity|].
  now rewrite is_delim_lower, IH.
Qed.

Lemma lower_substring s n m :
  JS.toLowerCase (String.substring n m s) = String.substring n m (JS.toLowerCase s).
Proof.
  revert n m. induction s as [|x s IH]; intros n m; simpl.
  - destruct n, m; reflexivity.
  - destruct n as [|n]; [destruct m as [|m]; simpl; [reflexivity | now rewrite IH] | apply IH].
Qed.

Lemma lower_length s : String.length (JS.toLowerCase s) = String.length s.
Proof. induction s as [|x s IH]; simpl; [reflexivity | now rewrite IH]. Qed.

Lemma table_no_delim table k s :
  forallb no_delim table = true ->
  all_opt (fun tr => no_delim (tile_contrib (fst tr)) = true) (table_rule table k s).
Proof.
  intros Ht v H. unfold table_rule in H.
  destruct (find _ table) as [p|] eqn:F; [|discriminate].
  apply find_some in F as [Hin Hp]. injection H as <-.
  assert (Hd : no_delim (JS.substring2 s 0 (String.length p)) = true).
  { rewrite <- no_delim_lower, substring2_0, lower_substring.
    unfold JS.startsWith in Hp. apply prefix_append in Hp as [r Hr].
    assert (L : String.length p <= String.length s).
    { rewrite <- (lower_length s), Hr, length_append. lia. }
    replace (Nat.min (String.length p) (String.length s)) with (String.length p) by lia.
    rewrite Hr, substring_0_append. rewrite forallb_forall in Ht. now apply Ht. }
  unfold tile_contrib. cbn [fst type text]. destruct k; first [exact Hd | reflexivity].
Qed.


Lemma take_while_all p s : forallb p (list_ascii_of_string (take_while p s)) = true.
Proof.
  induction s as [|c s IH]; simpl; [reflexivity|].
  destruct (p c) eqn:E; simpl; [now rewrite E, IH | reflexivity].
Qed.

Lemma alnum_run_no_delim s : no_delim (take_while JS.is_alnum s) = true.
Proof.
  unfold no_delim. pose proof (take_while_all JS.is_alnum s) as H.
  rewrite forallb_forall in *. intros x Hx. apply negb_true_iff, alnum_not_delim. now apply H.
Qed.

Lemma no_delim_app a b : no_delim (String.append a b) = no_delim a && no_delim b.
Proof. unfold no_delim. now rewrite list_ascii_app, forallb_app. Qed.

Lemma plain_step_no_delim c rest :
  is_delim c = false -> no_delim (tile_contrib (fst (tile_step c rest))) = true.
Proof.
  intros Hc. pose proof (delim_opener c Hc) as Ho.
  assert (Hne : forall o, In o ["|"; "<"; "["; "{"; "/"]%char -> c <> o).
  { intros o Ho' ->. unfold is_opener in Ho.
    assert (existsb (fun d => (d =? o)%char) ["|"; "<"; "["; "{"; "/"]%char = true)
      as Hx by (apply existsb_exists; exists o; split; [exact Ho' | apply Ascii.eqb_refl]).
    congruence. }
  unfold tile_step.
  rewrite (override_not_opener "<" _ _ _ c rest) by (apply Hne; simpl; tauto).
  rewrite (override_not_opener "[" _ _ _ c rest) by (apply Hne; simpl; tauto).
  rewrite (override_not_opener "{" _ _ _ c rest) by (apply Hne; simpl; tauto).
  rewrite (override_not_opener "/" _ _ _ c rest) by (apply Hne; simpl; tauto).
  match goal with |- context [match ?rl with Some r => r | None => _ end] =>
    assert (Hrule : all_opt (fun tr => no_delim (tile_contrib (fst tr)) = true) rl) end.
  { repeat apply all_opt_orelse;
      try exact (all_opt_None _); try (apply table_no_delim; reflexivity).
    - destruct (JS.startsWith _ _); [|exact (all_opt_None _)].
      intros v H; injection H as <-. reflexivity.
    - unfold syllableMatch.
      destruct (c =? "|"%char)%char eqn:E; [|exact (all_opt_None _)].
      apply Ascii.eqb_eq in E. exfalso. apply (Hne "|"%char); simpl; tauto.
    - destruct (suffixMatch _) as [m|] eqn:Hs; [|exact (all_opt_None _)].
      intros v H; injection H as <-. unfold tile_contrib. cbn [fst type text].
      unfold suffixMatch in Hs. destruct (c =? "-"%char)%char; [|discriminate].
      destruct (1 <=? _); [|discriminate]. injection Hs as <-.
      unfold no_delim. simpl. exact (alnum_run_no_delim rest).
    - destruct (prefixMatch _) as [m|] eqn:Hs; [|exact (all_opt_None _)].
      intros v H; injection H as <-. unfold tile_contrib. cbn [fst type text].
      unfold prefixMatch in Hs. destruct (1 <=? _); [|discriminate].
      destruct (JS.char_at _ _) as [x|]; [|discriminate].
      destruct x as [[] [] [] [] [] [] [] []]; try discriminate. injection Hs as <-.
      rewrite no_delim_app. apply andb_true_intro.
      split; [exact (alnum_run_no_delim (String c rest)) | reflexivity]. }
  destruct (_ <|> _) as [r|]; [now apply Hrule|].
  unfold single_letter. unfold no_delim.
  destruct (existsb _ _); simpl; now rewrite Hc.
Qed.

Lemma segs_split segs p r :
  forallb seg_ok segs = true -> no_delim p = true -> String.append p r = segs_string segs ->
  exists segs', r = segs_string segs' /\ forallb seg_ok segs' = true.
Proof.
  revert segs. induction p as [|x p IH]; intros segs Hs Hp E.
  - exists segs. split; [exact E | exact Hs].
  - unfold no_delim in Hp. simpl in Hp. apply andb_prop in Hp as [Hx Hp].
    destruct segs as [|[c|g inner] tl]; simpl in E; [discriminate E| |].
    + injection E as -> E. simpl in Hs. apply andb_prop in Hs as [_ Hs]. exact (IH tl Hs Hp E).
    + injection E as -> _. exfalso. destruct g; discriminate Hx.
Qed.

Lemma forallb_not_closer g inner :
  forallb plain_char (list_ascii_of_string inner) = true ->
  forallb (fun x => negb (x =? closer g)%char) (list_ascii_of_string inner) = true.
Proof.
  rewrite !forallb_forall. intros H x Hx. specialize (H x Hx).
  destruct x as [[] [] [] [] [] [] [] []]; try discriminate H; destruct g; reflexivity.
Qed.

Lemma slice_app a b : JS.slice (String.append a b) (String.length a) = b.
Proof.
  rewrite slice_eq, length_append.
  replace (Nat.min (String.length a) (String.length a + String.length b)) with (String.length a) by lia.
  replace (String.length a + String.length b - String.length a) with (String.length b) by lia.
  rewrite <- (Nat.add_0_r (String.length a)) at 1. rewrite substring_append_offset.
  apply substring_0_full.
Qed.

Lemma group_slice o t cl rest :
  JS.slice (String o (String.append t (String cl rest))) (2 + String.length t) = rest.
Proof.
  replace (String o (String.append t (String cl rest)))
    with (String.append (String o (String.append t (String cl EmptyString))) rest)
    by (simpl; now rewrite append_assoc).
  replace (2 + String.length t)
    with (String.length (String o (String.append t (String cl EmptyString))))
    by (simpl; rewrite length_append; simpl; lia).
  apply slice_app.
Qed.

Lemma group_substring o t cl rest :
  JS.substring2 (String o (String.append t (String cl rest))) 1 (1 + String.length t) = t.
Proof.
  unfold JS.substring2. cbn [String.length]. rewrite length_append. cbn [String.length].
  replace (Nat.min 1 (S (String.length t + S (String.length rest)))) with 1 by lia.
  replace (Nat.min (1 + String.length t) (S (String.length t + S (String.length rest))))
    with (1 + String.length t) by lia.
  replace (Nat.min 1 (1 + String.length t)) with 1 by lia.
  replace (Nat.max 1 (1 + String.length t) - 1) with (String.length t) by lia.
  cbn [String.substring]. apply substring_0_append.
Qed.

Lemma override_group o cl from k t rest :
  from <= 1 -> ((from <=? 0) && (o =? cl)%char) = false ->
  forallb (fun x => negb (x =? cl)%char) (list_ascii_of_string t) = true ->
  override o cl from k (String o (String.append t (String cl rest))) = Some (mkTile t k, rest).
Proof.
  intros Hf Ho Ht. unfold override.
  assert (Hs : JS.startsWith (String o (String.append t (String cl rest)))
                 (String o EmptyString) = true).
  { unfold JS.startsWith. simpl. destruct (ascii_dec o o); [|congruence].
    destruct (String.append t _); reflexivity. }
  rewrite Hs. unfold JS.indexOf. cbn [JS.indexOf_go]. rewrite Ho.
  rewrite indexOf_go_append by (lia || exact Ht).
  replace (1 + String.length t + 1) with (2 + String.length t) by lia.
  rewrite group_slice, group_substring. reflexivity.
Qed.

Lemma take_while_app p t x r :
  forallb p (list_ascii_of_string t) = true -> p x = false ->
  take_while p (String.append t (String x r)) = t.
Proof.
  intros Ht Hx. induction t as [|c t IH]; simpl in *; [now rewrite Hx|].
  apply andb_prop in Ht as [Hc Ht]. rewrite Hc. now rewrite IH.
Qed.

Lemma get_app_length t x r : String.get (String.length t) (String.append t (String x r)) = Some x.
Proof. induction t as [|c t IH]; simpl; [reflexivity | exact IH]. Qed.

Lemma group_step g inner rest :
  forallb plain_char (list_ascii_of_string inner) = true ->
  tile_step (opener g) (String.append inner (String (closer g) rest)) = (mkTile inner (group_type g), rest).
Proof.
  intros Hi. pose proof (forallb_not_closer g inner Hi) as Hc.
  destruct g; cbn [opener closer group_type] in *.
  - unfold tile_step.
    assert (E : syllableMatch (String "|" (String.append inner (String "|" rest)))
                = Some (inner, 2 + String.length inner)).
    { unfold syllableMatch. rewrite Ascii.eqb_refl.
      rewrite (take_while_app _ inner "|" rest Hc eq_refl). unfold JS.char_at.
      now rewrite get_app_length. }
    rewrite E. cbn -[JS.slice]. now rewrite group_slice.
  - unfold tile_step. rewrite (override_group "<" ">" 0 suffix inner rest) by (reflexivity || lia || exact Hc).
    reflexivity.
  - unfold tile_step. rewrite (override_group "[" "]" 0 vowel inner rest) by (reflexivity || lia || exact Hc).
    reflexivity.
  - unfold tile_step. rewrite (override_group "{" "}" 0 consonant inner rest) by (reflexivity || lia || exact Hc).
    reflexivity.
  - unfold tile_step. rewrite (override_group "/" "/" 1 welded inner rest) by (reflexivity || lia || exact Hc).
    reflexivity.
Qed.

Lemma segs_loop n acc segs :
  String.length (segs_string segs) <= n -> forallb seg_ok segs = true ->
  tiles_text (fst (tiles_loop n acc (segs_string segs)))
  = String.append (tiles_text acc) (strip_delims (segs_string segs)).
Proof.
  revert acc segs. induction n as [|n IH]; intros acc segs Hn Hs.
  - destruct segs as [|[] ?]; simpl in Hn; [|lia|lia]. simpl. now rewrite append_empty_r.
  - destruct segs as [|[c|g inner] tl].
    + simpl. now rewrite append_empty_r.
    + cbn [segs_string] in *. simpl in Hs. apply andb_prop in Hs as [Hc Htl].
      pose proof (plain_not_delim c Hc) as Hd.
      pose proof (tile_step_shrinks c (segs_string tl)) as Hsh.
      pose proof (tile_step_restores c (segs_string tl) (delim_opener c Hd)) as Hre.
      pose proof (plain_step_no_delim c (segs_string tl) Hd) as Hnd.
      cbn [tiles_loop]. destruct (tile_step c (segs_string tl)) as [t r].
      unfold restores in Hre. cbn [fst snd] in Hsh, Hre, Hnd.
      assert (Hs' : forallb seg_ok (Plain c :: tl) = true) by (simpl; now rewrite Hc, Htl).
      destruct (segs_split (Plain c :: tl) _ _ Hs' Hnd Hre) as [segs' [-> Hok]].
      rewrite IH by first [exact Hok | simpl in Hn, Hsh; lia].
      rewrite tiles_text_app, append_assoc. simpl. rewrite append_empty_r.
      rewrite <- Hre, strip_app, (strip_no_delim _ Hnd). reflexivity.
    + cbn [segs_string] in *. simpl in Hs. apply andb_prop in Hs as [Hi Htl].
      cbn [tiles_loop]. rewrite (group_step g inner (segs_string tl) Hi).
      rewrite IH by first [exact Htl | simpl in Hn; rewrite length_append in Hn; simpl in Hn; lia].
      rewrite tiles_text_app, append_assoc. simpl.
      assert (Hin : no_delim inner = true).
      { unfold no_delim. rewrite forallb_forall in *. intros x Hx.
        apply negb_true_iff, plain_not_delim. now apply Hi. }
      unfold strip_delims. cbn [Text.filter_chars].
      replace (negb (is_delim (opener g))) with false by (destruct g; reflexivity).
      fold (strip_delims (String.append inner (String (closer g) (segs_string tl)))).
      rewrite strip_app. unfold strip_delims at 2. cbn [Text.filter_chars].
      replace (negb (is_delim (closer g))) with false by (destruct g; reflexivity).
      rewrite (strip_no_delim _ Hin), append_empty_r. destruct g; reflexivity.
Qed.

Lemma segs_in_domain segs :
  forallb seg_ok segs = true -> letters_spaces_delims (segs_string segs) = true.
Proof.
  unfold letters_spaces_delims. induction segs as [|[c|g inner] tl IH]; intros Hs; [reflexivity| |].
  - simpl in *. apply andb_prop in Hs as [Hc Htl]. unfold plain_char in Hc.
    rewrite IH by exact Htl. apply orb_true_iff in Hc as [H|H]; rewrite H; simpl;
      rewrite ?orb_true_r; reflexivity.
  - simpl in Hs. apply andb_prop in Hs as [Hi Htl]. cbn [segs_string list_ascii_of_string forallb].
    rewrite list_ascii_app, forallb_app. cbn [list_ascii_of_string forallb]. rewrite IH by exact Htl.
    replace (is_delim (opener g)) with true by (destruct g; reflexivity).
    replace (is_delim (closer g)) with true by (destruct g; reflexivity).
    rewrite !orb_true_r. simpl. rewrite andb_true_r.
    rewrite forallb_forall in *. intros x Hx. specialize (Hi x Hx). unfold plain_char in Hi.
    now rewrite Hi.
Qed.

End GroupFacts.

(** * The claims *)

Import Tiles TileText TileFacts GroupFacts.

(** C1 (as stated, refuted): "{cat", "a}b" and "{[a]}" consist of letters
    and override delimiters, yet their tiles do not spell the stripped
    string: an unmatched opener or a stray closer is kept as a consonant
    tile, and in nested groups the outer group's text keeps the inner
    delimiters. *)
Lemma C1_counterexample :
  letters_spaces_delims "{cat" = true /\
  tiles_text (parseWordToTiles "{cat") = "{cat" /\ strip_delims "{cat" = "cat" /\
  letters_spaces_delims "a}b" = true /\
  tiles_text (parseWordToTiles "a}b") = "a}b" /\ strip_delims "a}b" = "ab" /\
  letters_spaces_delims "{[a]}" = true /\
  tiles_text (parseWordToTiles "{[a]}") = "[a]" /\ strip_delims "{[a]}" = "a".
Proof. vm_compute. repeat split. Qed.

(** C1 (amended): for every word made of letters, spaces and non-nested
    override groups (an opener |, <, [, {, / followed by letters and
    spaces and then its own closer |, >, ], }, /), which is a string of
    letters, spaces and override delimiters, the tile texts, each space
    tile counted as one space, spell the word with the delimiters
    removed. *)
Theorem C1_roundtrip_groups (segs : list Seg) :
  forallb seg_ok segs = true ->
  letters_spaces_delims (segs_string segs) = true /\
  tiles_text (parseWordToTiles (segs_string segs)) = strip_delims (segs_string segs).
Proof.
  intros H. split; [now apply segs_in_domain|]. unfold parseWordToTiles.
  rewrite (segs_loop _ [] segs (le_n _) H). reflexivity.
Qed.

Lemma C1_roundtrip_groups_witness :
  forallb seg_ok segs_example = true /\
  segs_string segs_example = "c{a}t |ab| c[a]t /an/d <re>//" /\
  tiles_text (parseWordToTiles (segs_string segs_example)) = "cat ab cat and re".
Proof.
  split; [reflexivity|]. split; [reflexivity|].
  rewrite (proj2 (C1_roundtrip_groups segs_example eq_refl)). reflexivity.
Defined.

(** C2: override syntax wins over auto-detection: "{a}" is one consonant
    tile "a", "[a]" one vowel tile "a", "/an/" one welded tile "an". *)
Theorem C2_override_precedence :
  parseWordToTiles "{a}" = [mkTile "a" consonant] /\
  parseWordToTiles "[a]" = [mkTile "a" vowel] /\
  parseWordToTiles "/an/" = [mkTile "an" welded].
Proof. repeat split; reflexivity. Qed.

(** C3: the loop, given as many iterations as the word has characters,
    always ends with nothing remaining; more iterations change nothing (it
    has stopped); and the empty word gives no tiles. *)
Theorem C3_total_consumes (word : string) :
  snd (tiles_loop (String.length word) [] word) = EmptyString /\
  (forall n, String.length word <= n ->
     tiles_loop n [] word = tiles_loop (String.length word) [] word) /\
  parseWordToTiles EmptyString = [].
Proof.
  split; [apply tiles_loop_consumes; lia|]. split; [|reflexivity].
  intros n Hn. apply tiles_loop_fuel; lia.
Qed.

Lemma C3_total_consumes_witness :
  snd (tiles_loop 3 [] "cat") = EmptyString /\
  tiles_loop 7 [] "cat" = tiles_loop 3 [] "cat".
Proof.
  destruct (C3_total_consumes "cat") as [H1 [H2 _]].
  split; [exact H1 | apply H2; simpl; lia].
Defined.

(** C7 (as stated, refuted): "//" yields one welded tile with empty text;
    the search from index 1 finds the second slash at index 1. *)
Lemma C7_counterexample : parseWordToTiles "//" = [mkTile "" welded].
Proof. reflexivity. Qed.

(** C7 (amended): the welded override takes as text exactly the
    characters between the opening slash and the next slash after it,
    possibly none, and continues after that slash. *)
Theorem C7_welded_interior (t rest : string) :
  forallb (fun x => negb (x =? "/")%char) (list_ascii_of_string t) = true ->
  parseWordToTiles (String "/" (t ++ String "/" rest)) =
  mkTile t welded :: parseWordToTiles rest.
Proof.
  intros Ht. unfold parseWordToTiles. cbn [String.length tiles_loop].
  rewrite (welded_override_step t rest Ht).
  rewrite tiles_loop_acc. simpl. f_equal. f_equal.
  apply tiles_loop_fuel; [rewrite StrFacts.length_append; simpl; lia | lia].
Qed.

Lemma C7_welded_interior_witness :
  forallb (fun x => negb (x =? "/")%char) (list_ascii_of_string "") = true /\
  parseWordToTiles (String "/" ("" ++ String "/" "")) = [mkTile "" welded].
Proof.
  split; [reflexivity|]. rewrite (C7_welded_interior "" "" eq_refl). reflexivity.
Defined.

Import JS Text Lesson LessonObs LessonFacts DetectFacts EraseFacts.

(** C4 (refuted): on a CSV whose data row is shorter than its header, so
    that the "lesson plan" cell is [undefined], a call with a target step
    and substep throws: [colLessonPlan.startsWith] is applied to
    [undefined], whatever [Math.random] returns. *)
Theorem C4_short_row_throws (rand : nat -> string) (n : nat) :
  parseLessonText rand csv_short_row (Some "3") (Some "1") n = Thrown TypeError.
Proof. reflexivity. Qed.

(** C5 (as stated, refuted): the specification's test looks at the first
    non-empty line; the code looks at [lines[0]], so a document starting
    with an empty line followed by ",,a" is not read as CSV. *)
Lemma C5_counterexample :
  spec_isCSV (nl ++ ",,a") = true /\ isCSV (nl ++ ",,a") = false.
Proof. split; reflexivity. Qed.

(** C5 (amended): the CSV path is taken exactly when the trimmed first
    line (the text before the first line break, possibly empty) starts
    with ",,", or it contains a comma and the [split('\n')] of the
    document has more than 2 parts (at least two line breaks); otherwise
    the call is the freeform pass. *)
Theorem C5_csv_detection (rand : nat -> string) (text : string) (ts tss : option string) :
  (isCSV text = true <->
     startsWith (trim (first_line text)) ",," = true \/
     (includes (trim (first_line text)) "," = true /\ 2 < length (split_lines text))) /\
  length (split_lines text) = S (count_nl text) /\
  (isCSV text = false -> parseLessonText rand text ts tss = freeform rand text initial).
Proof.
  split; [|split; [apply split_lines_length|]].
  - unfold isCSV. rewrite split_lines_first. rewrite orb_true_iff, andb_true_iff, Nat.ltb_lt.
    reflexivity.
  - intros H. unfold parseLessonText. apply not_isCSV_freeform, H.
Qed.

Lemma C5_csv_detection_witness :
  isCSV "a,b" = false /\
  parseLessonText (fun _ => EmptyString) "a,b" None None
  = freeform (fun _ => EmptyString) "a,b" initial.
Proof.
  split; [reflexivity|].
  destruct (C5_csv_detection (fun _ => EmptyString) "a,b" None None) as [_ [_ H]].
  apply H. reflexivity.
Defined.

(** C6 (as stated, refuted): the two-row document without a line break
    after the data row has only 2 lines and no leading ",,", so it is not
    read as CSV; the freeform pass puts the comma-separated pieces of the
    quoted row, with their quotes, into [hfwList] and leaves [sentences]
    empty. *)
Lemma C6_counterexample :
  match run (fun _ => EmptyString) csv_two_lines (Some "3") (Some "1") with
  | Ok e _ => hfwList e <> ["full"; "pull"] /\ sentences e = []
  | _ => False
  end.
Proof. vm_compute. split; [discriminate | reflexivity]. Qed.

(** C6 (amended): with a line break after the data row (three
    [split('\n')] parts), the call with "3" and "1" returns the record
    with hfwList ["full"; "pull"], the single sentence of the row, the
    empty passage cell, and nothing else, whatever [Math.random] returns. *)
Theorem C6_csv_row_extraction (rand : nat -> string) (n : nat) :
  parseLessonText rand csv_two_rows_nl (Some "3") (Some "1") n =
  Ok (mkEx (Some "3") (Some "1") [] ["full"; "pull"] []
           ["The cat sat. More text here."] (Some EmptyString) Dict.empty) n.
Proof. vm_compute. reflexivity. Qed.

(** C8 (as stated, refuted): in the quickDrill section the line
    "party, hat" is not a header and has no colon, yet nothing is
    appended: the line contains "part". *)
Lemma C8_counterexample :
  is_section_header (toLowerCase (cleanLine "party, hat")) = false /\
  includes (cleanLine "party, hat") ":" = false /\
  extractList (cleanLine "party, hat") = ["party"; "hat"] /\
  match run (fun _ => EmptyString) ("Quick Drill" ++ nl ++ "party, hat") None None with
  | Ok e _ => quickDrill e = []
  | _ => False
  end.
Proof. vm_compute. repeat split. Qed.

(** C8 (amended): for a cleaned line that matches no section-header
    keyword and has no colon, the hfw section appends its [extractList]
    items to [hfwList]; the quickDrill section appends them to
    [quickDrill] when the lowercased line does not contain "part", and
    leaves the state unchanged when it does. *)
Theorem C8_list_lines (rand : nat -> string) (st : FState) (rawLine : string) (n : nat) :
  is_section_header (toLowerCase (cleanLine rawLine)) = false ->
  includes (cleanLine rawLine) ":" = false ->
  (section st = Sec.hfw ->
   line_step rand st rawLine n =
   Ok (mkFS (set_hfwList (hfwList (ex st) ++ extractList (cleanLine rawLine)) (ex st))
            Sec.hfw (subMode st)) n) /\
  (section st = Sec.quickDrill ->
   includes (toLowerCase (cleanLine rawLine)) "part" = false ->
   line_step rand st rawLine n =
   Ok (mkFS (set_quickDrill (quickDrill (ex st) ++ extractList (cleanLine rawLine)) (ex st))
            Sec.quickDrill (subMode st)) n) /\
  (section st = Sec.quickDrill ->
   includes (toLowerCase (cleanLine rawLine)) "part" = true ->
   line_step rand st rawLine n = Ok st n).
Proof.
  intros Hh Hc. unfold is_section_header in Hh.
  repeat rewrite orb_false_iff in Hh.
  repeat match type of Hh with
  | _ /\ _ => let H := fresh "Hk" in destruct Hh as [Hh H]; rewrite ?H
  end.
  unfold line_step. cbv zeta.
  repeat match goal with H : includes _ _ = false |- _ => rewrite H; clear H end.
  cbn [orb negb].
  split; [|split]; intros Hs; rewrite Hs; [| intros Hp; rewrite Hp ..]; reflexivity.
Qed.

Lemma C8_list_lines_witness :
  is_section_header (toLowerCase (cleanLine "cat, dog")) = false /\
  includes (cleanLine "cat, dog") ":" = false /\
  line_step (fun _ => EmptyString) (mkFS initial Sec.hfw Sub.none) "cat, dog" 0 =
  Ok (mkFS (set_hfwList ["cat"; "dog"] initial) Sec.hfw Sub.none) 0.
Proof.
  split; [vm_compute; reflexivity|]. split; [vm_compute; reflexivity|].
  destruct (C8_list_lines (fun _ => EmptyString) (mkFS initial Sec.hfw Sub.none) "cat, dog" 0
              ltac:(vm_compute; reflexivity) ltac:(vm_compute; reflexivity)) as [H _].
  rewrite (H eq_refl). vm_compute. reflexivity.
Defined.

(** C9 (as stated, refuted): the ids of word cards come from
    [Math.random], so two calls with the same arguments return different
    records when the draws differ. *)
Lemma C9_counterexample :
  run (fun _ => "a") "Word Cards: cat" None None <> run (fun _ => "b") "Word Cards: cat" None None.
Proof. vm_compute. discriminate. Qed.

(** C9 (amended): the results of two calls with the same arguments agree
    once the word-card ids are blanked: same outcome, same fields, same
    card texts, types and order, same number of draws, whatever the two
    sequences of [Math.random] values are. *)
Theorem C9_deterministic_up_to_ids (rand1 rand2 : nat -> string) (text : string)
    (ts tss : option string) (n : nat) :
  erase_res (parseLessonText rand1 text ts tss n) = erase_res (parseLessonText rand2 text ts tss n).
Proof. apply parse_go_erase. Qed.

(** C10: every call ends, with a record or with the [TypeError] of C4:
    the nesting bound of the model is never reached, and the call is the
    same as with the bound 2, the outer call and at most one nested call
    on a dictation cell. *)
Theorem C10_recursion_bounded (rand : nat -> string) (text : string) (ts tss : option string) :
  parseLessonText rand text ts tss = parseLessonText_go rand 2 text ts tss /\
  (forall n, parseLessonText rand text ts tss n = Thrown TypeError \/
             exists a n', parseLessonText rand text ts tss n = Ok a n').
Proof.
  assert (E : parseLessonText rand text ts tss = parseLessonText_go rand 2 text ts tss).
  { unfold parseLessonText. destruct (String.length text) as [|k] eqn:L.
    - destruct text; [|discriminate L].
      rewrite (parse_single_line rand 0 EmptyString ts tss eq_refl).
      rewrite (parse_single_line rand 1 EmptyString ts tss eq_refl). reflexivity.
    - apply parse_depth_ge; lia. }
  split; [exact E|]. intros n. rewrite E. apply parse_depth_result. lia.
Qed.

(** * Further properties of the code *)

(** ** [trim] *)

Module TrimFacts.
Import JS StrFacts CsvObs.

Lemma list_ascii_append a b :
  list_ascii_of_string (String.append a b) = list_ascii_of_string a ++ list_ascii_of_string b.
Proof. induction a as [|c a IH]; simpl; [reflexivity | now rewrite IH]. Qed.

Lemma string_of_list_app l1 l2 :
  string_of_list_ascii (l1 ++ l2) = String.append (string_of_list_ascii l1) (string_of_list_ascii l2).
Proof. induction l1 as [|c l1 IH]; simpl; [reflexivity | now rewrite IH]. Qed.

Lemma rev_string_involutive s : rev_string (rev_string s) = s.
Proof.
  unfold rev_string. rewrite list_ascii_of_string_of_list_ascii, rev_involutive.
  apply string_of_list_ascii_of_string.
Qed.

Lemma rev_string_append a b :
  rev_string (String.append a b) = String.append (rev_string b) (rev_string a).
Proof. unfold rev_string. now rewrite list_ascii_append, rev_app_distr, string_of_list_app. Qed.

Lemma trim_start_suffix s : exists p, s = String.append p (trim_start s).
Proof.
  induction s as [|c s IH]; simpl; [now exists EmptyString|].
  destruct (is_space c).
  - destruct IH as [p Hp]. exists (String c p). simpl. now rewrite <- Hp.
  - now exists EmptyString.
Qed.

Lemma trim_start_no_lead s : no_lead (trim_start s) = true.
Proof.
  induction s as [|c s IH]; simpl; [reflexivity|].
  destruct (is_space c) eqn:E; [exact IH|]. simpl. now rewrite E.
Qed.

Lemma trim_start_id s : no_lead s = true -> trim_start s = s.
Proof.
  destruct s as [|c s]; simpl; [reflexivity|]. intros H.
  apply negb_true_iff in H. now rewrite H.
Qed.

Lemma no_lead_app a b : no_lead (String.append a b) = true -> no_lead a = true.
Proof. destruct a; simpl; auto. Qed.

Lemma trim_idem s : trim (trim s) = trim s.
Proof.
  unfold trim at 2. set (X := trim_start s). set (Y := trim_start (rev_string X)).
  assert (HX : no_lead X = true) by apply trim_start_no_lead.
  assert (HY : no_lead Y = true) by apply trim_start_no_lead.
  assert (HRY : no_lead (rev_string Y) = true).
  { destruct (trim_start_suffix (rev_string X)) as [p Hp]. fold Y in Hp.
    apply (f_equal rev_string) in Hp. rewrite rev_string_involutive, rev_string_append in Hp.
    rewrite Hp in HX. exact (no_lead_app _ _ HX). }
  unfold trim. rewrite (trim_start_id _ HRY), rev_string_involutive, (trim_start_id _ HY).
  reflexivity.
Qed.

End TrimFacts.

(** ** [parseCSVLine] *)

Module CsvFacts.
Import JS Text CsvObs StrFacts TrimFacts.

Lemma csv_go_chars c rest cur inq res :
  forallb (csv_char_ok inq) (list_ascii_of_string c) = true ->
  csv_go (String.append c rest) cur inq res = csv_go rest (String.append cur c) inq res.
Proof.
  revert cur. induction c as [|x c IH]; intros cur H; simpl.
  - now rewrite append_empty_r.
  - simpl in H. apply andb_prop in H as [Hx Hc]. unfold csv_char_ok in Hx.
    apply andb_prop in Hx as [Hq Hcm]. apply negb_true_iff in Hq. rewrite Hq.
    assert (E : ((x =? ","%char)%char && negb inq) = false).
    { destruct inq; simpl in *; [apply andb_false_r|]. apply negb_true_iff in Hcm.
      rewrite Hcm. reflexivity. }
    rewrite E, IH by exact Hc. now rewrite append_assoc.
Qed.

Lemma csv_go_escaped c rest cur res :
  csv_go (String.append (escape_quotes c) rest) cur true res
  = csv_go rest (String.append cur c) true res.
Proof.
  revert cur. induction c as [|x c IH]; intros cur; simpl.
  - now rewrite append_empty_r.
  - destruct (x =? quote)%char eqn:Hq.
    + apply Ascii.eqb_eq in Hq. subst x. simpl. rewrite IH, append_assoc. reflexivity.
    + simpl. rewrite Hq. simpl. rewrite andb_false_r, IH, append_assoc. reflexivity.
Qed.

Lemma csv_go_open s cur res : csv_go (String quote s) cur false res = csv_go s cur true res.
Proof. simpl. destruct s; reflexivity. Qed.

Lemma csv_go_close rest cur res :
  (rest = EmptyString \/ exists r, rest = String ","%char r) ->
  csv_go (String quote rest) cur true res = csv_go rest cur false res.
Proof. intros [-> | [r ->]]; reflexivity. Qed.

Lemma csv_go_comma rest cur res :
  csv_go (String ","%char rest) cur false res = csv_go rest EmptyString false (res ++ [cur]).
Proof. reflexivity. Qed.

Lemma get_in i c x : String.get i c = Some x -> In x (list_ascii_of_string c).
Proof.
  revert i. induction c as [|y c IH]; intros i H; simpl in *; [discriminate|].
  destruct i as [|i]; [injection H as ->; now left | right; exact (IH i H)].
Qed.

Lemma strip_quotes_id c :
  match char_at c 0 with Some x => (x =? quote)%char | None => false end = false ->
  match char_at c (String.length c - 1) with Some x => (x =? quote)%char | None => false end = false ->
  strip_quotes c = c.
Proof.
  intros H0 H1. unfold strip_quotes. unfold quote in H0, H1.
  assert (E : match c with String x s' => if (x =? "034"%char)%char then s' else c | _ => c end = c).
  { destruct c as [|x s']; [reflexivity|]. simpl in H0. now rewrite H0. }
  rewrite E. cbv zeta.
  destruct (char_at c (String.length c - 1)) as [y|]; [|reflexivity].
  rewrite H1, andb_false_r. reflexivity.
Qed.

Lemma cell_id c : csv_quotable_cell c = true -> trim (strip_quotes (trim c)) = c.
Proof.
  unfold csv_quotable_cell. intros H. apply andb_prop in H as [H H2].
  apply andb_prop in H as [Ht H1]. apply String.eqb_eq in Ht.
  apply negb_true_iff in H1, H2. rewrite Ht, strip_quotes_id by assumption. exact Ht.
Qed.

Lemma plain_quotable c : csv_plain_cell c = true -> csv_quotable_cell c = true.
Proof.
  unfold csv_plain_cell, csv_quotable_cell. intros H. apply andb_prop in H as [Hc Ht].
  rewrite Ht. simpl. rewrite forallb_forall in Hc.
  assert (G : forall i, match char_at c i with Some x => (x =? quote)%char | None => false end = false).
  { intros i. unfold char_at. destruct (String.get i c) as [x|] eqn:E; [|reflexivity].
    apply get_in in E. apply Hc in E. apply negb_true_iff, orb_false_iff in E. apply E. }
  now rewrite !G.
Qed.

Lemma plain_chars c :
  csv_plain_cell c = true -> forallb (csv_char_ok false) (list_ascii_of_string c) = true.
Proof.
  unfold csv_plain_cell. intros H. apply andb_prop in H as [Hc _].
  rewrite forallb_forall in *. intros x Hx. specialize (Hc x Hx).
  apply negb_true_iff, orb_false_iff in Hc as [H1 H2]. unfold csv_char_ok. now rewrite H1, H2.
Qed.

Lemma csv_go_concat_plain cells res :
  cells <> [] -> Forall (fun c => csv_plain_cell c = true) cells ->
  csv_go (String.concat "," cells) EmptyString false res = res ++ cells.
Proof.
  revert res. induction cells as [|c cells IH]; intros res Hne Hall; [easy|].
  inversion Hall as [|? ? Hc Hcs]; subst.
  destruct cells as [|c2 cells].
  - simpl. rewrite <- (append_empty_r c) at 1. rewrite csv_go_chars by now apply plain_chars.
    reflexivity.
  - change (String.concat "," (c :: c2 :: cells))
      with (String.append c (String ","%char (String.concat "," (c2 :: cells)))).
    rewrite csv_go_chars by now apply plain_chars. rewrite csv_go_comma.
    rewrite IH by easy. now rewrite <- app_assoc.
Qed.

Lemma quoteCell_append c rest :
  String.append (quoteCell c) rest
  = String quote (String.append (escape_quotes c) (String quote rest)).
Proof. unfold quoteCell. simpl. now rewrite append_assoc. Qed.

Lemma csv_go_concat_quoted cells res :
  cells <> [] ->
  csv_go (String.concat "," (map quoteCell cells)) EmptyString false res = res ++ cells.
Proof.
  revert res. induction cells as [|c cells IH]; intros res Hne; [easy|].
  destruct cells as [|c2 cells].
  - change (String.concat "," (map quoteCell [c])) with (quoteCell c).
    rewrite <- (append_empty_r (quoteCell c)), quoteCell_append, csv_go_open,
      csv_go_escaped, csv_go_close by now left. reflexivity.
  - change (String.concat "," (map quoteCell (c :: c2 :: cells)))
      with (String.append (quoteCell c) (String ","%char (String.concat "," (map quoteCell (c2 :: cells))))).
    rewrite quoteCell_append, csv_go_open, csv_go_escaped, csv_go_close by (right; eexists; reflexivity).
    rewrite csv_go_comma, IH by easy. now rewrite <- app_assoc.
Qed.

Lemma csv_go_nonempty s cur inq res : csv_go s cur inq res <> [].
Proof.
  revert cur inq res.
  induction s as [s IH] using (well_founded_induction
    (Wf_nat.well_founded_ltof _ String.length)).
  intros cur inq res. destruct s as [|c s']; simpl.
  - destruct res; discriminate.
  - destruct (c =? quote)%char.
    + destruct s' as [|c2 s''].
      * apply IH. unfold Wf_nat.ltof. simpl. lia.
      * destruct (inq && (c2 =? quote)%char); apply IH; unfold Wf_nat.ltof; simpl; lia.
    + destruct ((c =? ","%char)%char && negb inq); apply IH; unfold Wf_nat.ltof; simpl; lia.
Qed.

End CsvFacts.

(** ** What the importer puts into its lists *)

Module InvFacts.
Import JS Text Lesson LessonObs LessonInv StrFacts TrimFacts EraseFacts.

Lemma good_of_trim y : nonempty (trim y) = true -> good_item (trim y).
Proof. intros H. split; [exact H | apply trim_idem]. Qed.

Lemma extractList_items s x :
  In x (extractList s) ->
  good_item x /\ includes (toLowerCase x) "word count" = false.
Proof.
  unfold extractList. intros H. apply filter_In in H as [Hin Hp].
  apply andb_prop in Hp as [Hne Hw]. apply negb_true_iff in Hw.
  apply in_map_iff in Hin as [y [<- _]]. split; [now apply good_of_trim | exact Hw].
Qed.

Lemma extractList_good s : Forall good_item (extractList s).
Proof. apply Forall_forall. intros x Hx. now apply extractList_items in Hx. Qed.

Lemma header_items_good l items : header_items l = Some items -> Forall good_item items.
Proof.
  unfold header_items. destruct (nth_error _ 1); [|discriminate].
  destruct (_ && _); [|discriminate]. intros H. injection H as <-. apply extractList_good.
Qed.

Lemma getList_good indices row hs : Forall good_item (getList indices row hs).
Proof.
  unfold getList. destruct (nonempty _); [|constructor].
  apply Forall_forall. intros x Hx. apply filter_In in Hx as [Hin Hne].
  apply in_map_iff in Hin as [y [<- _]]. now apply good_of_trim.
Qed.

Lemma cards_from_ok rand n words :
  Forall good_item words ->
  Forall (fun c => good_item (text c) /\ type c = Card.regular) (cards_from rand n words).
Proof.
  revert n. induction words as [|w ws IH]; intros n H; simpl; [constructor|].
  inversion H; subst. constructor; [split; [assumption | reflexivity] | now apply IH].
Qed.

Lemma sent_cond (line lower : string) :
  (5 <? String.length line) && includes line " " && negb (includes lower "part 6") = true ->
  5 < String.length line.
Proof. intros H. apply andb_prop in H as [H _]. apply andb_prop in H as [H _]. now apply Nat.ltb_lt. Qed.

Ltac inv_split :=
  unfold lesson_inv, set_quickDrill, set_hfwList, set_wordCards, set_sentences, set_passage;
  cbn [quickDrill hfwList wordCards sentences dictation];
  refine (conj _ (conj _ (conj _ (conj _ _)))).

Lemma inv_qd e items :
  lesson_inv e -> Forall good_item items -> lesson_inv (set_quickDrill (quickDrill e ++ items) e).
Proof. intros (H1 & H2 & H3 & H4 & H5) Hi. inv_split; try assumption. now apply Forall_app. Qed.

Lemma inv_hfw e items :
  lesson_inv e -> Forall good_item items -> lesson_inv (set_hfwList (hfwList e ++ items) e).
Proof. intros (H1 & H2 & H3 & H4 & H5) Hi. inv_split; try assumption. now apply Forall_app. Qed.

Lemma inv_wc e cards :
  lesson_inv e -> Forall (fun c => good_item (text c) /\ type c = Card.regular) cards ->
  lesson_inv (set_wordCards (wordCards e ++ cards) e).
Proof. intros (H1 & H2 & H3 & H4 & H5) Hi. inv_split; try assumption. now apply Forall_app. Qed.

Lemma inv_sent e x :
  lesson_inv e -> 5 < String.length x -> lesson_inv (set_sentences (sentences e ++ [x]) e).
Proof.
  intros (H1 & H2 & H3 & H4 & H5) Hi. inv_split; try assumption.
  apply Forall_app. split; [exact H4 | now constructor].
Qed.

Lemma inv_passage e p : lesson_inv e -> lesson_inv (set_passage p e).
Proof. intros H. exact H. Qed.

Lemma dict_push_ok m items d :
  dict_ok d -> Forall good_item items -> m <> Sub.sentences -> dict_ok (Dict.push m items d).
Proof.
  intros (H1 & H2 & H3 & H4 & H5 & H6) Hi Hm.
  destruct m; simpl; repeat split; try assumption; try (apply Forall_app; split; assumption).
  easy.
Qed.

Lemma inv_dictation_line st rawLine line lower :
  lesson_inv (ex st) -> lesson_inv (ex (dictation_line st rawLine line lower)).
Proof.
  intros (H1 & H2 & H3 & H4 & H5). unfold dictation_line. cbn [ex].
  unfold set_dictation. inv_split; try assumption.
  destruct (_ && _); [|exact H5].
  match goal with |- dict_ok (match ?m with _ => _ end) => destruct m eqn:Em end;
    try (apply dict_push_ok; [exact H5 | apply extractList_good | discriminate]).
  destruct (_ && _) eqn:Ec; [|exact H5].
  apply andb_prop in Ec as [Hl Hs]. apply Nat.ltb_lt in Hl. apply negb_true_iff in Hs.
  destruct H5 as (D1 & D2 & D3 & D4 & D5 & D6). repeat split; try assumption.
  simpl. apply Forall_app. split; [exact D6 | now constructor].
Qed.

Section WithRand.
Variable rand : nat -> string.

Lemma line_step_inv st l n :
  lesson_inv (ex st) -> res_ok (fun st' _ => lesson_inv (ex st')) (line_step rand st l n).
Proof.
  intros H. unfold line_step.
  destruct (section st); repeat match goal with
  | |- context [if ?b then _ else _] => destruct b eqn:?
  | |- context [match header_items ?x with _ => _ end] => destruct (header_items x) eqn:?
  end.
  all: unfold bind, ret; rewrite ?toCards_eq; cbn [res_ok ex].
  all: first [ exact H
    | apply inv_qd; [exact H | first [eapply header_items_good; eassumption | apply extractList_good]]
    | apply inv_hfw; [exact H | first [eapply header_items_good; eassumption | apply extractList_good]]
    | apply inv_wc; [exact H | apply cards_from_ok;
                     first [eapply header_items_good; eassumption | apply extractList_good]]
    | apply inv_sent; [exact H | eapply sent_cond; eassumption]
    | apply inv_passage, H
    | apply inv_dictation_line, H ].
Qed.

Lemma lines_loop_inv st ls n :
  lesson_inv (ex st) -> res_ok (fun st' _ => lesson_inv (ex st')) (lines_loop rand st ls n).
Proof.
  revert st n. induction ls as [|l ls IH]; intros st n H; simpl; [exact H|].
  unfold bind. pose proof (line_step_inv st l n H) as E.
  destruct (line_step rand st l n) as [st' n'| |]; [|exact I | exact I].
  apply IH, E.
Qed.

Lemma freeform_inv text e n :
  lesson_inv e -> res_ok (fun r _ => lesson_inv r) (freeform rand text e n).
Proof.
  intros H. unfold freeform, bind.
  match goal with |- context [lines_loop rand ?st ?ls n] =>
    pose proof (lines_loop_inv st ls n) as E end.
  destruct (lines_loop rand _ _ n); [|exact I | exact I]. apply E.
  cbn [ex]. destruct (stepMatch text) as [[]|]; exact H.
Qed.

Lemma initial_inv : lesson_inv initial.
Proof. repeat split; constructor. Qed.

Lemma csv_record_inv n' ts' tss' qd hfw words sents psg dict :
  Forall good_item qd -> Forall good_item hfw -> Forall good_item words ->
  Forall (fun s => 5 < String.length s) sents -> dict_ok dict ->
  lesson_inv (mkEx ts' tss' qd hfw (cards_from rand n' words) sents psg dict).
Proof.
  intros H1 H2 H3 H4 H5. refine (conj H1 (conj H2 (conj _ (conj H4 H5)))).
  now apply cards_from_ok.
Qed.

Lemma csv_sentences_ok raw :
  Forall (fun s => 5 < String.length s)
    (if nonempty raw then filter (fun s => 5 <? String.length s) (map trim (split_lines raw))
     else []).
Proof.
  destruct (nonempty raw); [|constructor].
  apply Forall_forall. intros x Hx. apply filter_In in Hx as [_ Hx]. now apply Nat.ltb_lt.
Qed.

Lemma parse_go_inv d text ts tss n :
  res_ok (fun r _ => lesson_inv r) (parseLessonText_go rand d text ts tss n).
Proof.
  revert text ts tss n. induction d as [|d IH]; intros text ts tss n; [exact I|].
  cbn [parseLessonText_go].
  destruct (isCSV text); [|apply freeform_inv, initial_inv].
  destruct (findDataRow _ _ _) as [x|[row|]]; [exact I | | apply freeform_inv, initial_inv].
  set (idx := build_indices _ 0 []). clearbody idx.
  unfold bind. rewrite toCards_eq.
  set (words := getList idx row ["new vocab words"] ++ getList idx row ["vocab from sentences"]
                ++ getList idx row ["vocab from connected text"]).
  assert (Hw : Forall good_item words).
  { unfold words. repeat (apply Forall_app; split); apply getList_good. }
  clearbody words.
  destruct (nonempty (getCol idx row ["dictation"])).
  - pose proof (IH (getCol idx row ["dictation"]) None None (n + length words)) as E.
    destruct (parseLessonText_go rand d (getCol idx row ["dictation"]) None None (n + length words))
      as [a k| |]; [|exact I | exact I].
    apply csv_record_inv; try apply getList_good; [exact Hw | apply csv_sentences_ok | apply E].
  - apply csv_record_inv; try apply getList_good; [exact Hw | apply csv_sentences_ok |].
    repeat split; constructor.
Qed.

End WithRand.

End InvFacts.

(** ** How the loop changes the record *)

Module ShapeFacts.
Import JS Text Lesson LessonObs LessonInv StrFacts EraseFacts.

Lemma cards_from_app rand n w1 w2 :
  cards_from rand n (w1 ++ w2) = cards_from rand n w1 ++ cards_from rand (n + length w1) w2.
Proof.
  revert n. induction w1 as [|w w1 IH]; intros n; simpl; [now rewrite Nat.add_0_r|].
  rewrite IH. now rewrite Nat.add_succ_r.
Qed.

Lemma prefix_refl {A} (l : list A) : prefix_of l l.
Proof. exists []. now rewrite app_nil_r. Qed.

Lemma prefix_app {A} (l s : list A) : prefix_of l (l ++ s).
Proof. now exists s. Qed.

Lemma prefix_trans {A} (l1 l2 l3 : list A) : prefix_of l1 l2 -> prefix_of l2 l3 -> prefix_of l1 l3.
Proof. intros [s1 ->] [s2 ->]. exists (s1 ++ s2). now rewrite app_assoc. Qed.

Lemma dict_prefix_refl d : dict_prefix d d.
Proof. repeat split; apply prefix_refl. Qed.

Lemma dict_prefix_trans d1 d2 d3 : dict_prefix d1 d2 -> dict_prefix d2 d3 -> dict_prefix d1 d3.
Proof.
  intros (A1 & A2 & A3 & A4 & A5 & A6) (B1 & B2 & B3 & B4 & B5 & B6).
  repeat split; eapply prefix_trans; eassumption.
Qed.

Lemma dict_prefix_push m items d : dict_prefix d (Dict.push m items d).
Proof. destruct m; simpl; repeat split; first [apply prefix_app | apply prefix_refl]. Qed.

Lemma grows_refl e : grows e e.
Proof. repeat split; first [apply prefix_refl | apply dict_prefix_refl]. Qed.

Lemma grows_trans e1 e2 e3 : grows e1 e2 -> grows e2 e3 -> grows e1 e3.
Proof.
  intros (A1 & A2 & A3 & A4 & A5) (B1 & B2 & B3 & B4 & B5).
  refine (conj _ (conj _ (conj _ (conj _ _))));
    try (eapply prefix_trans; eassumption). eapply dict_prefix_trans; eassumption.
Qed.

Section WithRand.
Variable rand : nat -> string.

Lemma shape_refl e n : step_shape rand e n e n.
Proof.
  split; [apply grows_refl|]. split; [reflexivity|]. split; [reflexivity|].
  exists []. simpl. now rewrite app_nil_r, Nat.add_0_r.
Qed.

Lemma shape_trans e1 n1 e2 n2 e3 n3 :
  step_shape rand e1 n1 e2 n2 -> step_shape rand e2 n2 e3 n3 -> step_shape rand e1 n1 e3 n3.
Proof.
  intros (G1 & S1 & T1 & w1 & W1 & N1) (G2 & S2 & T2 & w2 & W2 & N2).
  split; [eapply grows_trans; eassumption|]. split; [congruence|]. split; [congruence|].
  exists (w1 ++ w2). rewrite W2, W1, cards_from_app, <- N1, <- app_assoc.
  split; [reflexivity|]. rewrite length_app. lia.
Qed.

(** A step that adds no card. *)
Lemma shape_nocards e1 e2 n :
  grows e1 e2 -> step e2 = step e1 -> substep e2 = substep e1 -> wordCards e2 = wordCards e1 ->
  step_shape rand e1 n e2 n.
Proof.
  intros G S T W. refine (conj G (conj S (conj T _))).
  exists []. simpl. rewrite app_nil_r, Nat.add_0_r. now split.
Qed.

Lemma grows_qd e items : grows e (set_quickDrill (quickDrill e ++ items) e).
Proof.
  unfold grows, set_quickDrill. cbn [quickDrill hfwList wordCards sentences dictation].
  repeat split; first [apply prefix_app | apply prefix_refl | apply dict_prefix_refl].
Qed.

Lemma grows_hfw e items : grows e (set_hfwList (hfwList e ++ items) e).
Proof.
  unfold grows, set_hfwList. cbn [quickDrill hfwList wordCards sentences dictation].
  repeat split; first [apply prefix_app | apply prefix_refl | apply dict_prefix_refl].
Qed.

Lemma grows_wc e items : grows e (set_wordCards (wordCards e ++ items) e).
Proof.
  unfold grows, set_wordCards. cbn [quickDrill hfwList wordCards sentences dictation].
  repeat split; first [apply prefix_app | apply prefix_refl | apply dict_prefix_refl].
Qed.

Lemma grows_sent e items : grows e (set_sentences (sentences e ++ items) e).
Proof.
  unfold grows, set_sentences. cbn [quickDrill hfwList wordCards sentences dictation].
  repeat split; first [apply prefix_app | apply prefix_refl | apply dict_prefix_refl].
Qed.

Lemma grows_passage e p : grows e (set_passage p e).
Proof. exact (grows_refl e). Qed.

Lemma grows_dictation_line st rawLine line lower :
  grows (ex st) (ex (dictation_line st rawLine line lower)).
Proof.
  unfold dictation_line, grows, set_dictation. cbn [ex quickDrill hfwList wordCards sentences dictation].
  refine (conj _ (conj _ (conj _ (conj _ _)))); try apply prefix_refl.
  destruct (_ && _); [|apply dict_prefix_refl].
  match goal with |- dict_prefix _ (match ?m with _ => _ end) => destruct m end;
    try apply dict_prefix_push.
  destruct (_ && _); [apply dict_prefix_push | apply dict_prefix_refl].
Qed.

Lemma line_step_shape st l n :
  res_ok (fun st' n' => step_shape rand (ex st) n (ex st') n') (line_step rand st l n).
Proof.
  unfold line_step.
  destruct (section st); repeat match goal with
  | |- context [if ?b then _ else _] => destruct b
  | |- context [match header_items ?x with _ => _ end] => destruct (header_items x)
  end.
  all: unfold bind, ret; rewrite ?toCards_eq; cbn [res_ok ex].
  all: first
    [ apply shape_refl
    | refine (conj (grows_wc _ _) (conj eq_refl (conj eq_refl _))); eexists; split; reflexivity
    | apply shape_nocards;
      [ first [ apply grows_qd | apply grows_hfw | apply grows_sent | apply grows_passage
              | apply grows_dictation_line ]
      | reflexivity | reflexivity | reflexivity ] ].
Qed.

Lemma lines_loop_shape st ls n :
  res_ok (fun st' n' => step_shape rand (ex st) n (ex st') n') (lines_loop rand st ls n).
Proof.
  revert st n. induction ls as [|l ls IH]; intros st n; simpl; [apply shape_refl|].
  unfold bind. pose proof (line_step_shape st l n) as E.
  destruct (line_step rand st l n) as [st' n'| |]; [|exact I | exact I].
  specialize (IH st' n'). cbn [res_ok] in *.
  destruct (lines_loop rand st' ls n'); [|exact I | exact I]. eapply shape_trans; eassumption.
Qed.

Lemma freeform_shape text e n :
  res_ok (fun r n' =>
    step r = match stepMatch text with Some (s, _) => Some s | None => step e end /\
    substep r = match stepMatch text with Some (_, ss) => Some ss | None => substep e end /\
    exists words, wordCards r = wordCards e ++ cards_from rand n words /\ n' = n + length words)
    (freeform rand text e n).
Proof.
  unfold freeform, bind.
  match goal with |- context [lines_loop rand ?st ?ls n] =>
    pose proof (lines_loop_shape st ls n) as E end.
  destruct (lines_loop rand _ _ n); [|exact I | exact I].
  unfold ret. cbn [res_ok] in *.
  destruct E as (_ & S & T & W). cbn [ex] in *. rewrite S, T.
  destruct (stepMatch text) as [[s ss]|]; cbn in *; repeat split; exact W.
Qed.

Lemma parse_go_cards d text ts tss n :
  res_ok (fun r n' => exists words, wordCards r = cards_from rand n words /\ n + length words <= n')
    (parseLessonText_go rand d text ts tss n).
Proof.
  revert text ts tss n. induction d as [|d IH]; intros text ts tss n; [exact I|].
  assert (F : forall e, wordCards e = [] ->
    res_ok (fun r n' => exists words, wordCards r = cards_from rand n words /\ n + length words <= n')
      (freeform rand text e n)).
  { intros e He. pose proof (freeform_shape text e n) as E.
    destruct (freeform rand text e n); [|exact I | exact I].
    destruct E as (_ & _ & w & W & N). exists w. rewrite W, He. split; [reflexivity | lia]. }
  cbn [parseLessonText_go].
  destruct (isCSV text); [|now apply F].
  destruct (findDataRow _ _ _) as [x|[row|]]; [exact I | | now apply F].
  set (idx := build_indices _ 0 []). clearbody idx.
  unfold bind. rewrite toCards_eq.
  set (words := getList idx row ["new vocab words"] ++ getList idx row ["vocab from sentences"]
                ++ getList idx row ["vocab from connected text"]).
  clearbody words.
  destruct (nonempty (getCol idx row ["dictation"])).
  - pose proof (IH (getCol idx row ["dictation"]) None None (n + length words)) as E.
    destruct (parseLessonText_go rand d (getCol idx row ["dictation"]) None None (n + length words))
      as [a k| |]; [|exact I | exact I].
    destruct E as (w & _ & N). exists words. split; [reflexivity | cbn; lia].
  - exists words. split; [reflexivity | cbn; lia].
Qed.

End WithRand.

End ShapeFacts.

(** ** [cleanLine] *)

Module CleanFacts.
Import JS Text.

Definition no_bracket_tab (c : ascii) : bool :=
  negb ((c =? "["%char)%char || (c =? "]"%char)%char || (c =? "009"%char)%char).

Lemma map_filter_clean s :
  forallb no_bracket_tab
    (list_ascii_of_string
       (map_chars (fun c => if (c =? "009"%char)%char then " "%char else c)
          (filter_chars (fun c => negb ((c =? "["%char)%char || (c =? "]"%char)%char)) s)))
  = true.
Proof.
  induction s as [|c s IH]; simpl; [reflexivity|].
  destruct (negb _) eqn:Hp; [|exact IH]. simpl. rewrite IH, andb_true_r.
  destruct (c =? "009"%char)%char eqn:Ht; [reflexivity|].
  unfold no_bracket_tab. rewrite Ht, orb_false_r. exact Hp.
Qed.

End CleanFacts.

(** ** [addToInventory] *)

Module InventoryFacts.
Import Inventory LessonInv ShapeFacts.

Lemma includes_item_spec l x : includes_item l x = true <-> In x l.
Proof.
  unfold includes_item. rewrite existsb_exists. split.
  - intros [y [Hy E]]. apply String.eqb_eq in E. now subst.
  - intros H. exists x. split; [exact H | apply String.eqb_refl].
Qed.

Lemma push_missing_fold items l ch :
  (forall x, In x (fst (fold_left push_missing items (l, ch))) <-> In x l \/ In x items) /\
  prefix_of l (fst (fold_left push_missing items (l, ch))) /\
  (NoDup l -> NoDup (fst (fold_left push_missing items (l, ch)))) /\
  snd (fold_left push_missing items (l, ch))
  = ch || existsb (fun x => negb (includes_item l x)) items.
Proof.
  revert l ch. induction items as [|i items IH]; intros l ch; simpl.
  - split; [tauto|]. split; [apply prefix_refl|]. split; [tauto|]. now rewrite orb_false_r.
  - destruct (includes_item l i) eqn:Hi; simpl.
    + destruct (IH l ch) as (M & P & D & C). split; [|split; [exact P | split; [exact D | exact C]]].
      intros x. rewrite M. apply includes_item_spec in Hi. split; [tauto|].
      intros [H|[<-|H]]; tauto.
    + destruct (IH (l ++ [i]) true) as (M & P & D & C).
      split; [|split; [|split]].
      * intros x. rewrite M, in_app_iff. simpl. tauto.
      * eapply prefix_trans; [apply prefix_app | exact P].
      * intros Hl. apply D. apply NoDup_app; [exact Hl | repeat constructor; auto |].
        intros x Hx [<-|[]]. apply includes_item_spec in Hx. congruence.
      * rewrite C. now rewrite orb_true_r.
Qed.

Lemma push_new_fold items l ch :
  fold_left push_new items l = fst (fold_left push_missing items (l, ch)).
Proof.
  revert l ch. induction items as [|i items IH]; intros l ch; simpl; [reflexivity|].
  unfold push_new at 2. destruct (includes_item l i); apply IH.
Qed.

Lemma existsb_missing_false l items :
  existsb (fun x => negb (includes_item l x)) items = false <-> (forall x, In x items -> In x l).
Proof.
  split.
  - intros H x Hx. destruct (includes_item l x) eqn:E; [now apply includes_item_spec|].
    assert (existsb (fun x => negb (includes_item l x)) items = true) as T
      by (apply existsb_exists; exists x; now rewrite E). congruence.
  - intros H. apply not_true_iff_false. intros T. apply existsb_exists in T as [x [Hx E]].
    apply negb_true_iff in E. apply H, includes_item_spec in Hx. congruence.
Qed.

End InventoryFacts.

(** ** Cards built by the importer *)

Module CardFacts.
Import Lesson LessonObs.

Lemma cards_from_ids rand n words :
  map id (cards_from rand n words) = map rand (seq n (length words)).
Proof. revert n. induction words as [|w ws IH]; intros n; simpl; [reflexivity | now rewrite IH]. Qed.

Lemma cards_from_length rand n words : length (cards_from rand n words) = length words.
Proof. revert n. induction words as [|w ws IH]; intros n; simpl; [reflexivity | now rewrite IH]. Qed.

End CardFacts.

(** ** The CSV header map and row search *)

Module FindFacts.
Import JS Text Lesson.

Lemma build_indices_lookup k hs i m v :
  lookup k (build_indices hs i m) = Some v <->
  (exists j, nth_error (map (fun h => trim (toLowerCase h)) hs) j = Some k /\ v = i + j /\
     forall j', j < j' -> nth_error (map (fun h => trim (toLowerCase h)) hs) j' <> Some k) \/
  (~ In k (map (fun h => trim (toLowerCase h)) hs) /\ lookup k m = Some v).
Proof.
  revert i m. induction hs as [|h hs IH]; intros i m; cbn [build_indices map].
  - split; [intros H; right; split; [intros []|exact H]|].
    intros [(j & Hj & _)|[_ H]]; [destruct j; discriminate Hj | exact H].
  - rewrite IH. cbn [lookup]. destruct (String.eqb k (trim (toLowerCase h))) eqn:E.
    + apply String.eqb_eq in E. split.
      * intros [(j & Hj & -> & Hl)|[Hn Hv]].
        -- left. exists (S j). split; [exact Hj|]. split; [lia|].
           intros [|j'] Hj'; [lia|]. apply Hl. lia.
        -- injection Hv as <-. left. exists 0. split; [cbn; now rewrite E|]. split; [lia|].
           intros [|j'] Hj'; [lia|]. cbn. intros Hn'. apply Hn. eapply nth_error_In; exact Hn'.
      * intros [([|j] & Hj & -> & Hl)|[Hn _]].
        -- right. split; [|f_equal; lia]. intros Hin.
           apply In_nth_error in Hin as [j' Hj']. apply (Hl (S j')); [lia | exact Hj'].
        -- left. exists j. split; [exact Hj|]. split; [lia|].
           intros j' Hj'. apply (Hl (S j')). lia.
        -- exfalso. apply Hn. left. now symmetry.
    + assert (Nk : trim (toLowerCase h) <> k) by (intros <-; now rewrite String.eqb_refl in E). split.
      * intros [(j & Hj & -> & Hl)|[Hn Hv]].
        -- left. exists (S j). split; [exact Hj|]. split; [lia|].
           intros [|j'] Hj'; [lia|]. apply Hl. lia.
        -- right. split; [intros [H|H]; [exact (Nk H) | exact (Hn H)] | exact Hv].
      * intros [([|j] & Hj & -> & Hl)|[Hn Hv]].
        -- cbn in Hj. injection Hj as Hj. contradiction.
        -- left. exists j. split; [exact Hj|]. split; [lia|].
           intros j' Hj'. apply (Hl (S j')). lia.
        -- right. split; [intros H; apply Hn; now right | exact Hv].
Qed.

Lemma findDataRow_spec target lp ls :
  match findDataRow target lp ls with
  | inl _ => target <> None
  | inr None => True
  | inr (Some row) =>
      exists l, In l ls /\ row = parseCSVLine l /\ 2 <= length row /\
      let col0 := option_map trim (nth_error row 0) in
      let colLessonPlan := match lp with
                           | Some i => option_map trim (nth_error row i)
                           | None => Some EmptyString end in
      match target with
      | Some tid => col0 = Some tid \/ exists cl, colLessonPlan = Some cl /\ startsWith cl tid = true
      | None => truthy col0 = true \/ truthy colLessonPlan = true
      end
  end.
Proof.
  induction ls as [|l ls IH]; cbn [findDataRow]; [exact I|].
  destruct (length (parseCSVLine l) <? 2) eqn:L.
  - destruct (findDataRow target lp ls) as [x|[row|]]; try exact IH.
    destruct IH as (l' & H1 & H2). exists l'. split; [now right | exact H2].
  - apply Nat.ltb_ge in L.
    assert (K : forall row, row = parseCSVLine l -> exists l', In l' (l :: ls) /\ row = parseCSVLine l')
      by (intros row ->; exists l; split; [now left | reflexivity]).
    destruct target as [tid|].
    + destruct (match option_map trim (nth_error (parseCSVLine l) 0) with
                | Some c => String.eqb c tid | None => false end) eqn:C0.
      * exists l. split; [now left|]. split; [reflexivity|]. split; [exact L|]. left.
        destruct (option_map trim (nth_error (parseCSVLine l) 0)); [|discriminate C0].
        apply String.eqb_eq in C0. now subst.
      * destruct (match lp with Some i => option_map trim (nth_error (parseCSVLine l) i)
                  | None => Some EmptyString end) as [cl|] eqn:CL; [|discriminate].
        destruct (startsWith cl tid) eqn:SW.
        -- exists l. split; [now left|]. split; [reflexivity|]. split; [exact L|]. right.
           exists cl. split; [exact CL | exact SW].
        -- destruct (findDataRow (Some tid) lp ls) as [x|[row|]]; try exact IH.
           destruct IH as (l' & H1 & H2). exists l'. split; [now right | exact H2].
    + destruct (truthy _ || truthy _) eqn:T.
      * exists l. split; [now left|]. split; [reflexivity|]. split; [exact L|].
        apply orb_true_iff in T. exact T.
      * destruct (findDataRow None lp ls) as [x|[row|]]; try exact IH.
        destruct IH as (l' & H1 & H2). exists l'. split; [now right | exact H2].
Qed.

Lemma build_indices_none k hs i m :
  lookup k (build_indices hs i m) = None <->
  ~ In k (map (fun h => trim (toLowerCase h)) hs) /\ lookup k m = None.
Proof.
  revert i m. induction hs as [|h hs IH]; intros i m; cbn [build_indices map].
  - split; [intros H; split; [intros []|exact H] | intros [_ H]; exact H].
  - rewrite IH. cbn [lookup]. destruct (String.eqb k (trim (toLowerCase h))) eqn:E.
    + apply String.eqb_eq in E. split; [intros [_ H]; discriminate H|].
      intros [Hn _]. exfalso. apply Hn. now left.
    + assert (Nk : trim (toLowerCase h) <> k) by (intros <-; now rewrite String.eqb_refl in E).
      split.
      * intros [Hn Hv]. split; [intros [H|H]; [exact (Nk H) | exact (Hn H)] | exact Hv].
      * intros [Hn Hv]. split; [intros H; apply Hn; now right | exact Hv].
Qed.

End FindFacts.

(** * Properties of the further code *)

Import CsvObs TrimFacts CsvFacts LessonInv InvFacts ShapeFacts CleanFacts CardFacts TileColor
  FindFacts.

(** X1: [parseCSVLine] reads back a row of plain cells joined by commas:
    cells with no comma, no quote and no surrounding white space. *)
Theorem X1_parseCSVLine_plain_roundtrip (cells : list string) :
  cells <> [] -> Forall (fun c => csv_plain_cell c = true) cells ->
  parseCSVLine (String.concat "," cells) = cells.
Proof.
  intros Hne Hall. unfold parseCSVLine. rewrite csv_go_concat_plain by assumption. simpl.
  rewrite <- (map_id cells) at 2. apply map_ext_in. intros c Hc.
  apply cell_id, plain_quotable. rewrite Forall_forall in Hall. now apply Hall.
Qed.

Lemma X1_parseCSVLine_plain_roundtrip_witness :
  parseCSVLine (String.concat "," ["Lesson Plan"; ""; "cat sat"]) = ["Lesson Plan"; ""; "cat sat"].
Proof.
  apply X1_parseCSVLine_plain_roundtrip; [discriminate|].
  repeat constructor.
Defined.

(** X2: [parseCSVLine] reads back a row whose cells are each written in
    double quotes with inner quotes doubled, for cells with no surrounding
    white space that neither start nor end with a quote; the cells may
    hold commas and quotes. *)
Theorem X2_parseCSVLine_quoted_roundtrip (cells : list string) :
  cells <> [] -> Forall (fun c => csv_quotable_cell c = true) cells ->
  parseCSVLine (String.concat "," (map quoteCell cells)) = cells.
Proof.
  intros Hne Hall. unfold parseCSVLine. rewrite csv_go_concat_quoted by assumption. simpl.
  rewrite <- (map_id cells) at 2. apply map_ext_in. intros c Hc.
  apply cell_id. rewrite Forall_forall in Hall. now apply Hall.
Qed.

Lemma X2_parseCSVLine_quoted_roundtrip_witness :
  parseCSVLine (String.concat "," (map quoteCell ["full, pull"; ("say " ++ q ++ "hi" ++ q ++ " now")%string]))
  = ["full, pull"; ("say " ++ q ++ "hi" ++ q ++ " now")%string].
Proof.
  apply X2_parseCSVLine_quoted_roundtrip; [discriminate|].
  repeat constructor.
Defined.

(** X3: [parseCSVLine] returns at least one cell for every line (the
    empty line gives one empty cell), and every cell has no surrounding
    white space. *)
Theorem X3_parseCSVLine_cells (line : string) :
  parseCSVLine line <> [] /\ Forall (fun c => trim c = c) (parseCSVLine line).
Proof.
  unfold parseCSVLine. split.
  - intros H. apply map_eq_nil in H. exact (csv_go_nonempty _ _ _ _ H).
  - apply Forall_map, Forall_forall. intros c _. apply trim_idem.
Qed.

(** X4: a cleaned line holds no square bracket and no tab. *)
Theorem X4_cleanLine_no_brackets_tabs (l : string) :
  forallb no_bracket_tab (list_ascii_of_string (cleanLine l)) = true.
Proof. apply map_filter_clean. Qed.

(** X5: every item [extractList] returns is non-empty, has no surrounding
    white space, and does not contain "word count" in any letter case. *)
Theorem X5_extractList_items (s x : string) :
  In x (extractList s) ->
  nonempty x = true /\ trim x = x /\ includes (toLowerCase x) "word count" = false.
Proof. intros H. destruct (extractList_items s x H) as [[H1 H2] H3]. tauto. Qed.

Lemma X5_extractList_items_witness :
  In "cat" (extractList "1. cat, dog") /\ nonempty "cat" = true /\ trim "cat" = "cat" /\
  includes (toLowerCase "cat") "word count" = false.
Proof.
  assert (H : In "cat" (extractList "1. cat, dog")) by (vm_compute; now left).
  split; [exact H | exact (X5_extractList_items "1. cat, dog" "cat" H)].
Defined.

(** X6: in every record [parseLessonText] returns, the items of
    quickDrill, hfwList, the word-card texts and the five word lists of
    dictation are non-empty and have no surrounding white space. *)
Theorem X6_parse_items_trimmed (rand : nat -> string) (text : string) (ts tss : option string)
    (n : nat) (r : Extracted) (n' : nat) :
  parseLessonText rand text ts tss n = Ok r n' ->
  Forall good_item (quickDrill r) /\ Forall good_item (hfwList r) /\
  Forall (fun c => good_item (Lesson.text c)) (wordCards r) /\
  Forall good_item (Dict.sounds (dictation r)) /\ Forall good_item (Dict.realWords (dictation r)) /\
  Forall good_item (Dict.wordElements (dictation r)) /\
  Forall good_item (Dict.nonsenseWords (dictation r)) /\ Forall good_item (Dict.phrases (dictation r)).
Proof.
  intros E. pose proof (parse_go_inv rand (S (String.length text)) text ts tss n) as I.
  unfold parseLessonText in E. rewrite E in I. cbn [res_ok] in I.
  destruct I as (H1 & H2 & H3 & _ & D1 & D2 & D3 & D4 & D5 & _).
  refine (conj H1 (conj H2 (conj _ (conj D1 (conj D2 (conj D3 (conj D4 D5))))))).
  eapply Forall_impl; [|exact H3]. intros c [Hc _]. exact Hc.
Qed.

Lemma X6_parse_items_trimmed_witness :
  match parseLessonText (fun _ => "id") ("Sight Words: the, said" ++ nl ++ "Word Cards: cat") None None 0 with
  | Ok r _ => Forall good_item (hfwList r) /\ Forall (fun c => good_item (Lesson.text c)) (wordCards r)
  | _ => False
  end.
Proof.
  destruct (parseLessonText (fun _ => "id") ("Sight Words: the, said" ++ nl ++ "Word Cards: cat")
              None None 0) as [r n'| |] eqn:E; [|vm_compute in E; discriminate ..].
  destruct (X6_parse_items_trimmed _ _ _ _ _ r n' E) as (_ & H2 & H3 & _). exact (conj H2 H3).
Defined.

(** X7: in every record [parseLessonText] returns, each sentence is
    longer than 5 characters, and so is each dictation sentence, which
    moreover does not contain "sentences" in any letter case. *)
Theorem X7_parse_sentences (rand : nat -> string) (text : string) (ts tss : option string)
    (n : nat) (r : Extracted) (n' : nat) :
  parseLessonText rand text ts tss n = Ok r n' ->
  Forall (fun s => 5 < String.length s) (sentences r) /\
  Forall (fun s => 5 < String.length s /\ includes (toLowerCase s) "sentences" = false)
    (Dict.sentences (dictation r)).
Proof.
  intros E. pose proof (parse_go_inv rand (S (String.length text)) text ts tss n) as I.
  unfold parseLessonText in E. rewrite E in I. cbn [res_ok] in I.
  destruct I as (_ & _ & _ & H4 & _ & _ & _ & _ & _ & D6). exact (conj H4 D6).
Qed.

Lemma X7_parse_sentences_witness :
  match parseLessonText (fun _ => "id")
          ("Reading Sentences" ++ nl ++ "The cat sat." ++ nl ++ "Hi there" ++ nl ++
           "Dictation" ++ nl ++ "6. The dog ran.") None None 0 with
  | Ok r _ =>
      sentences r = ["The cat sat."; "Hi there"] /\ Dict.sentences (dictation r) = ["The dog ran."] /\
      Forall (fun s => 5 < String.length s) (sentences r) /\
      Forall (fun s => 5 < String.length s /\ includes (toLowerCase s) "sentences" = false)
        (Dict.sentences (dictation r))
  | _ => False
  end.
Proof.
  destruct (parseLessonText (fun _ => "id")
              ("Reading Sentences" ++ nl ++ "The cat sat." ++ nl ++ "Hi there" ++ nl ++
               "Dictation" ++ nl ++ "6. The dog ran.") None None 0) as [r n'| |] eqn:E;
    [|vm_compute in E; discriminate ..].
  destruct (X7_parse_sentences _ _ _ _ _ r n' E) as [H1 H2].
  vm_compute in E. injection E as <- _.
  split; [reflexivity|]. split; [reflexivity|]. exact (conj H1 H2).
Defined.

(** X8: the word cards of a record [parseLessonText] returns are all of
    type regular, and their ids are the [Math.random] draws of the call,
    in order, from the first one. The call makes at least as many draws
    as it returns cards, and exactly as many when the text is not read as
    CSV; on the CSV path it can make more, as the cards built by the
    nested parse of the dictation cell are drawn and then discarded. *)
Theorem X8_parse_card_ids (rand : nat -> string) (text : string) (ts tss : option string)
    (n : nat) (r : Extracted) (n' : nat) :
  parseLessonText rand text ts tss n = Ok r n' ->
  map id (wordCards r) = map rand (seq n (length (wordCards r))) /\
  Forall (fun c => type c = Card.regular) (wordCards r) /\
  n + length (wordCards r) <= n' /\
  (isCSV text = false -> n' = n + length (wordCards r)) /\
  (exists r0, parseLessonText rand csv_dict_cards None None n = Ok r0 (S n) /\ wordCards r0 = []).
Proof.
  intros E. pose proof (parse_go_cards rand (S (String.length text)) text ts tss n) as C.
  pose proof (parse_go_inv rand (S (String.length text)) text ts tss n) as I.
  unfold parseLessonText in E. rewrite E in C, I. cbn [res_ok] in C, I.
  destruct C as (w & W & N). destruct I as (_ & _ & H3 & _).
  refine (conj _ (conj _ (conj _ (conj _ _)))).
  - rewrite W, cards_from_length, cards_from_ids. reflexivity.
  - eapply Forall_impl; [|exact H3]. intros c [_ Hc]. exact Hc.
  - rewrite W, cards_from_length. exact N.
  - intros Hc. rewrite (not_isCSV_freeform rand _ text ts tss Hc) in E.
    pose proof (freeform_shape rand text initial n) as F. rewrite E in F. cbn [res_ok] in F.
    destruct F as (_ & _ & w' & W' & N'). rewrite W'. cbn [wordCards initial app].
    now rewrite cards_from_length.
  - eexists. split; [vm_compute; reflexivity | reflexivity].
Qed.

Lemma X8_parse_card_ids_witness :
  match parseLessonText (fun k => String (ascii_of_nat (48 + k)) EmptyString)
          "Word Cards: cat, dog" None None 0 with
  | Ok r n' => map id (wordCards r) = ["0"; "1"] /\ n' = 2
  | _ => False
  end.
Proof.
  destruct (parseLessonText (fun k => String (ascii_of_nat (48 + k)) EmptyString)
              "Word Cards: cat, dog" None None 0) as [r n'| |] eqn:E;
    [|vm_compute in E; discriminate ..].
  destruct (X8_parse_card_ids _ _ _ _ _ r n' E) as (H & _ & _ & Hn & _).
  rewrite (Hn eq_refl). vm_compute in E. injection E as <- <-. rewrite H. split; reflexivity.
Defined.

(** X9: when the text is not read as CSV, the step and substep of the
    result come from the first "Step a.b" (or bare "a.b") in the text,
    and are empty when there is none; the target step and substep passed
    in are ignored. *)
Theorem X9_freeform_step (rand : nat -> string) (text : string) (ts tss : option string)
    (n : nat) (r : Extracted) (n' : nat) :
  isCSV text = false ->
  parseLessonText rand text ts tss n = Ok r n' ->
  step r = option_map fst (stepMatch text) /\ substep r = option_map snd (stepMatch text).
Proof.
  intros Hc E. unfold parseLessonText in E. rewrite (not_isCSV_freeform rand _ text ts tss Hc) in E.
  pose proof (freeform_shape rand text initial n) as F. rewrite E in F. cbn [res_ok] in F.
  destruct F as (S1 & S2 & _). rewrite S1, S2.
  destruct (stepMatch text) as [[s ss]|]; split; reflexivity.
Qed.

Lemma X9_freeform_step_witness :
  match parseLessonText (fun _ => "id") "Step 4.2 review" (Some "9") (Some "9") 0 with
  | Ok r _ => step r = Some "4" /\ substep r = Some "2"
  | _ => False
  end.
Proof.
  destruct (parseLessonText (fun _ => "id") "Step 4.2 review" (Some "9") (Some "9") 0)
    as [r n'| |] eqn:E; [|vm_compute in E; discriminate ..].
  assert (Hc : isCSV "Step 4.2 review" = false) by (vm_compute; reflexivity).
  destruct (X9_freeform_step _ _ _ _ _ r n' Hc E) as [H1 H2].
  rewrite H1, H2. vm_compute. split; reflexivity.
Defined.

(** X10: the line loop of the freeform pass only ever appends: each
    list of the record, the dictation lists included, is a prefix of its
    value after the loop, step and substep are never changed, and the new
    word cards take their ids from the draws in order. *)
Theorem X10_lines_loop_appends (rand : nat -> string) (st : FState) (ls : list string)
    (n : nat) (st' : FState) (n' : nat) :
  lines_loop rand st ls n = Ok st' n' ->
  grows (ex st) (ex st') /\ step (ex st') = step (ex st) /\ substep (ex st') = substep (ex st) /\
  exists words, wordCards (ex st') = wordCards (ex st) ++ cards_from rand n words /\
                n' = n + length words.
Proof.
  intros E. pose proof (lines_loop_shape rand st ls n) as S. rewrite E in S. exact S.
Qed.

Lemma X10_lines_loop_appends_witness :
  match lines_loop (fun _ => "id") (mkFS (set_hfwList ["the"] initial) Sec.hfw Sub.none)
          ["said, was"; "Word Cards"; "cat"] 0 with
  | Ok st' _ => prefix_of ["the"] (hfwList (ex st'))
  | _ => False
  end.
Proof.
  destruct (lines_loop (fun _ => "id") (mkFS (set_hfwList ["the"] initial) Sec.hfw Sub.none)
              ["said, was"; "Word Cards"; "cat"] 0) as [st' n'| |] eqn:E;
    [|vm_compute in E; discriminate ..].
  destruct (X10_lines_loop_appends _ _ _ _ _ _ E) as ((_ & H & _) & _). exact H.
Defined.

(** X11: two tile types get the same colour classes exactly when they are
    in the same group: vowel, vowel team and r-controlled; welded; suffix
    and prefix; syllable; space; digraph and consonant. *)
Theorem X11_getTileColor_groups (t1 t2 : Tiles.TileType) :
  getTileColor t1 = getTileColor t2 <->
  (In t1 [Tiles.vowel; Tiles.vowelTeam; Tiles.rControl] /\
   In t2 [Tiles.vowel; Tiles.vowelTeam; Tiles.rControl]) \/
  (t1 = Tiles.welded /\ t2 = Tiles.welded) \/
  (In t1 [Tiles.suffix; Tiles.prefix] /\ In t2 [Tiles.suffix; Tiles.prefix]) \/
  (t1 = Tiles.syllable /\ t2 = Tiles.syllable) \/
  (t1 = Tiles.space /\ t2 = Tiles.space) \/
  (In t1 [Tiles.digraph; Tiles.consonant] /\ In t2 [Tiles.digraph; Tiles.consonant]).
Proof.
  destruct t1, t2; cbn; split; intros H;
    first [ discriminate H
          | reflexivity
          | intuition discriminate
          | tauto ].
Qed.

(** X12: with an active group, [addToInventory] updates nothing, neither
    the group nor any student, exactly when every item is already in the
    group's list of that type, even if some session student lacks one. *)
Theorem X12_addToInventory_none (inv : Inventory.GroupInventory)
    (students : list Inventory.StudentProfile) (ids items : list string) (k : Inventory.Kind) :
  Inventory.addToInventory (Some inv) students ids items k = None <->
  (forall x, In x items -> In x (Inventory.kind_list k inv)).
Proof.
  rewrite <- InventoryFacts.existsb_missing_false. unfold Inventory.addToInventory.
  destruct (InventoryFacts.push_missing_fold items
              (match k with Inventory.sound => Inventory.learnedSounds inv
                          | Inventory.hfw => Inventory.learnedHFW inv end) false) as (_ & _ & _ & C).
  destruct (fold_left _ _ _) as [l1 ch]. cbn [snd] in C. rewrite C.
  replace (match k with Inventory.sound => Inventory.learnedSounds inv
                      | Inventory.hfw => Inventory.learnedHFW inv end)
    with (Inventory.kind_list k inv) by (destruct k; reflexivity).
  destruct (existsb _ _); cbn; split; congruence.
Qed.

Lemma X12_addToInventory_none_witness :
  Inventory.addToInventory (Some (Inventory.mkInv ["sh"; "ch"] []))
    [Inventory.mkStudent "s1" "Ann" [] [] 0 None "" []] ["s1"] ["ch"] Inventory.sound = None.
Proof.
  apply X12_addToInventory_none. intros x [<-|[]]. right. now left.
Defined.

(** X13: when [addToInventory] updates the group, the new list of that
    type is the old list followed by the items it lacked: its members are
    the old members and the items, and it has no duplicate if the old list
    had none; the group's other list is kept, and the students passed on
    are the old ones, each updated by [update_student]. *)
Theorem X13_addToInventory_update (inv inv' : Inventory.GroupInventory)
    (students students' : list Inventory.StudentProfile) (ids items : list string)
    (k : Inventory.Kind) :
  Inventory.addToInventory (Some inv) students ids items k = Some (inv', students') ->
  prefix_of (Inventory.kind_list k inv) (Inventory.kind_list k inv') /\
  (forall x, In x (Inventory.kind_list k inv') <-> In x (Inventory.kind_list k inv) \/ In x items) /\
  (NoDup (Inventory.kind_list k inv) -> NoDup (Inventory.kind_list k inv')) /\
  (exists x, In x items /\ ~ In x (Inventory.kind_list k inv)) /\
  (match k with Inventory.sound => Inventory.learnedHFW inv' = Inventory.learnedHFW inv
              | Inventory.hfw => Inventory.learnedSounds inv' = Inventory.learnedSounds inv end) /\
  students' = map (Inventory.update_student ids items k) students.
Proof.
  intros E.
  assert (Hn : ~ (forall x, In x items -> In x (Inventory.kind_list k inv))).
  { rewrite <- (X12_addToInventory_none inv students ids items k). congruence. }
  unfold Inventory.addToInventory in E.
  destruct (InventoryFacts.push_missing_fold items
              (match k with Inventory.sound => Inventory.learnedSounds inv
                          | Inventory.hfw => Inventory.learnedHFW inv end) false) as (M & P & D & _).
  destruct (fold_left _ _ _) as [l1 ch]. cbn [fst] in M, P, D.
  destruct ch; [|discriminate E]. injection E as <- <-.
  assert (Ex : exists x, In x items /\ ~ In x (Inventory.kind_list k inv)).
  { destruct (existsb (fun x => negb (Inventory.includes_item (Inventory.kind_list k inv) x)) items)
      eqn:B.
    - apply existsb_exists in B as [x [Hx B]]. exists x. split; [exact Hx|].
      intros Hin. apply InventoryFacts.includes_item_spec in Hin. now rewrite Hin in B.
    - exfalso. apply Hn. now apply InventoryFacts.existsb_missing_false. }
  destruct k; cbn [Inventory.kind_list Inventory.learnedSounds Inventory.learnedHFW] in *;
    refine (conj P (conj M (conj D (conj Ex (conj eq_refl eq_refl))))).
Qed.

Lemma X13_addToInventory_update_witness :
  Inventory.addToInventory (Some (Inventory.mkInv ["sh"] ["the"]))
    [Inventory.mkStudent "s1" "Ann" [] [] 0 None "" []] ["s1"] ["ch"; "sh"] Inventory.sound
  = Some (Inventory.mkInv ["sh"; "ch"] ["the"],
          [Inventory.mkStudent "s1" "Ann" ["ch"; "sh"] [] 0 None "" []]) /\
  prefix_of ["sh"] ["sh"; "ch"].
Proof.
  assert (E : Inventory.addToInventory (Some (Inventory.mkInv ["sh"] ["the"]))
    [Inventory.mkStudent "s1" "Ann" [] [] 0 None "" []] ["s1"] ["ch"; "sh"] Inventory.sound
  = Some (Inventory.mkInv ["sh"; "ch"] ["the"],
          [Inventory.mkStudent "s1" "Ann" ["ch"; "sh"] [] 0 None "" []])) by reflexivity.
  split; [exact E|]. exact (proj1 (X13_addToInventory_update _ _ _ _ _ _ _ E)).
Defined.

(** X14: [update_student] leaves a student outside the session as it is;
    for a session student it changes only the mastered list of that type,
    into the old list followed by the items it lacked: its members are the
    old members and the items, and it has no duplicate if the old list had
    none. *)
Theorem X14_update_student (ids items : list string) (k : Inventory.Kind)
    (s : Inventory.StudentProfile) :
  (~ In (Inventory.id s) ids -> Inventory.update_student ids items k s = s) /\
  (In (Inventory.id s) ids ->
   let s' := Inventory.update_student ids items k s in
   prefix_of (Inventory.kind_mastered k s) (Inventory.kind_mastered k s') /\
   (forall x, In x (Inventory.kind_mastered k s') <-> In x (Inventory.kind_mastered k s) \/ In x items) /\
   (NoDup (Inventory.kind_mastered k s) -> NoDup (Inventory.kind_mastered k s')) /\
   Inventory.id s' = Inventory.id s /\ Inventory.name s' = Inventory.name s /\
   Inventory.attendanceCount s' = Inventory.attendanceCount s /\
   Inventory.lastSeen s' = Inventory.lastSeen s /\ Inventory.notes s' = Inventory.notes s /\
   Inventory.history s' = Inventory.history s /\
   (match k with Inventory.sound => Inventory.masteredHFW s' = Inventory.masteredHFW s
               | Inventory.hfw => Inventory.masteredSounds s' = Inventory.masteredSounds s end)).
Proof.
  unfold Inventory.update_student. split.
  - intros Hn. destruct (Inventory.includes_item ids (Inventory.id s)) eqn:B; [|reflexivity].
    apply InventoryFacts.includes_item_spec in B. contradiction.
  - intros Hi. apply InventoryFacts.includes_item_spec in Hi. rewrite Hi. cbv zeta.
    destruct k; cbn [Inventory.kind_mastered Inventory.set_masteredSounds Inventory.set_masteredHFW
                     Inventory.masteredSounds Inventory.masteredHFW Inventory.id Inventory.name
                     Inventory.attendanceCount Inventory.lastSeen Inventory.notes Inventory.history];
      rewrite (InventoryFacts.push_new_fold _ _ false);
      [ destruct (InventoryFacts.push_missing_fold items (Inventory.masteredSounds s) false)
          as (M & P & D & _)
      | destruct (InventoryFacts.push_missing_fold items (Inventory.masteredHFW s) false)
          as (M & P & D & _) ];
      refine (conj P (conj M (conj D _))); repeat split.
Qed.

Lemma X14_update_student_witness :
  Inventory.update_student ["s1"] ["ch"] Inventory.sound
    (Inventory.mkStudent "s2" "Bo" [] [] 0 None "" [])
  = Inventory.mkStudent "s2" "Bo" [] [] 0 None "" [] /\
  prefix_of ["sh"] (Inventory.kind_mastered Inventory.sound
    (Inventory.update_student ["s1"] ["ch"] Inventory.sound
       (Inventory.mkStudent "s1" "Ann" ["sh"] [] 0 None "" []))).
Proof.
  split.
  - apply (proj1 (X14_update_student ["s1"] ["ch"] Inventory.sound
                    (Inventory.mkStudent "s2" "Bo" [] [] 0 None "" []))).
    intros [H|[]]. discriminate H.
  - apply (proj2 (X14_update_student ["s1"] ["ch"] Inventory.sound
                    (Inventory.mkStudent "s1" "Ann" ["sh"] [] 0 None "" []))).
    now left.
Defined.

(** X15: for each column name the CSV path looks up, the header map sends
    it to the position of its last occurrence among the lowercased,
    trimmed header cells, so a repeated header makes [getCol] read the
    rightmost such column; a name with no column is absent from the map. *)
Theorem X15_header_index_last (headers : list string) (k : string) :
  In k queried_headers ->
  (forall i, lookup k (build_indices headers 0 []) = Some i <->
     nth_error (map (fun h => trim (toLowerCase h)) headers) i = Some k /\
     forall j, i < j -> nth_error (map (fun h => trim (toLowerCase h)) headers) j <> Some k) /\
  (lookup k (build_indices headers 0 []) = None <->
     ~ In k (map (fun h => trim (toLowerCase h)) headers)).
Proof.
  intros _. split.
  - intros i. rewrite build_indices_lookup. split.
    + intros [(j & Hj & -> & Hl)|[_ H]]; [split; [exact Hj | exact Hl] | discriminate H].
    + intros [Hi Hl]. left. exists i. split; [exact Hi|]. split; [reflexivity | exact Hl].
  - rewrite build_indices_none. split; [intros [H _]; exact H | intros H; split; [exact H | reflexivity]].
Qed.

Lemma X15_header_index_last_witness :
  In "sentences" queried_headers /\
  lookup "sentences" (build_indices ["Sentences"; "Reader"; "sentences"] 0 []) = Some 2 /\
  lookup "dictation" (build_indices ["Sentences"; "Reader"; "sentences"] 0 []) = None.
Proof.
  assert (Hk : In "sentences" queried_headers) by (vm_compute; tauto).
  assert (Hd : In "dictation" queried_headers) by (vm_compute; tauto).
  split; [exact Hk|]. split.
  - apply (proj1 (X15_header_index_last ["Sentences"; "Reader"; "sentences"] "sentences" Hk) 2).
    split; [reflexivity|]. intros j Hj. destruct j as [|[|[|j]]]; try lia. destruct j; discriminate.
  - apply (proj2 (X15_header_index_last ["Sentences"; "Reader"; "sentences"] "dictation" Hd)).
    vm_compute. intros [H|[H|[H|[]]]]; discriminate H.
Defined.

(** X16: the data-row search of the CSV path throws only when a target
    identifier is given; a row it returns is the parse of one of the
    searched lines, has at least two cells, and, with a target, has that
    target as its trimmed first cell or a trimmed "lesson plan" cell
    starting with it (the empty string when there is no such column);
    without a target, its first or its "lesson plan" cell is not empty. *)
Theorem X16_findDataRow_found (target : option string) (lessonPlanIdx : option nat)
    (ls : list string) :
  match findDataRow target lessonPlanIdx ls with
  | inl _ => target <> None
  | inr None => True
  | inr (Some row) =>
      exists l, In l ls /\ row = parseCSVLine l /\ 2 <= length row /\
      let col0 := option_map trim (nth_error row 0) in
      let colLessonPlan := match lessonPlanIdx with
                           | Some i => option_map trim (nth_error row i)
                           | None => Some EmptyString end in
      match target with
      | Some tid => col0 = Some tid \/ exists cl, colLessonPlan = Some cl /\ startsWith cl tid = true
      | None => truthy col0 = true \/ truthy colLessonPlan = true
      end
  end.
Proof. apply findDataRow_spec. Qed.

(** X17: the student update of [handleBriefingStart] keeps the students
    and their order; a student of the session has one more attendance and
    is last seen on the session date, whatever else is unchanged; a
    student outside the session is unchanged; a student listed twice is
    counted once. *)
Theorem X17_briefing_students (date : string) (ids : list string)
    (students : list Inventory.StudentProfile) (i : nat) (s : Inventory.StudentProfile) :
  map Inventory.id (Inventory.briefing_students date ids students) = map Inventory.id students /\
  (nth_error students i = Some s ->
   exists s', nth_error (Inventory.briefing_students date ids students) i = Some s' /\
     (In (Inventory.id s) ids ->
        s' = Inventory.mkStudent (Inventory.id s) (Inventory.name s) (Inventory.masteredSounds s)
               (Inventory.masteredHFW s) (S (Inventory.attendanceCount s)) (Some date)
               (Inventory.notes s) (Inventory.history s)) /\
     (~ In (Inventory.id s) ids -> s' = s)).
Proof.
  unfold Inventory.briefing_students. split.
  - rewrite map_map. apply map_ext. intros t.
    destruct (Inventory.includes_item ids (Inventory.id t)); reflexivity.
  - intros H. rewrite nth_error_map, H. cbn [option_map]. eexists. split; [reflexivity|].
    split.
    + intros Hi. apply InventoryFacts.includes_item_spec in Hi. rewrite Hi.
      unfold Inventory.set_attendance. now rewrite Nat.add_1_r.
    + intros Hn. destruct (Inventory.includes_item ids (Inventory.id s)) eqn:B; [|reflexivity].
      apply InventoryFacts.includes_item_spec in B. contradiction.
Qed.

Lemma X17_briefing_students_witness :
  exists s', nth_error (Inventory.briefing_students "10/14" ["s1"; "s1"]
                 [Inventory.mkStudent "s1" "Ann" [] [] 3 None "" []]) 0 = Some s' /\
             s' = Inventory.mkStudent "s1" "Ann" [] [] 4 (Some "10/14") "" [].
Proof.
  destruct (proj2 (X17_briefing_students "10/14" ["s1"; "s1"]
              [Inventory.mkStudent "s1" "Ann" [] [] 3 None "" []] 0
              (Inventory.mkStudent "s1" "Ann" [] [] 3 None "" [])) eq_refl) as (s' & H & Hi & _).
  exists s'. split; [exact H|]. apply Hi. now left.
Defined.

(** X18: the student update of [handleCompleteMission] keeps the students
    and their order; a student of the session gets exactly one new history
    entry, in front, with the date, the lesson title and "step.substep",
    and nothing else changes; a student outside the session is
    unchanged. *)
Theorem X18_complete_students (now title step substep : string) (ids : list string)
    (students : list Inventory.StudentProfile) (i : nat) (s : Inventory.StudentProfile) :
  map Inventory.id (Inventory.complete_students now title step substep ids students)
  = map Inventory.id students /\
  (nth_error students i = Some s ->
   exists s', nth_error (Inventory.complete_students now title step substep ids students) i = Some s' /\
     (In (Inventory.id s) ids ->
        s' = Inventory.mkStudent (Inventory.id s) (Inventory.name s) (Inventory.masteredSounds s)
               (Inventory.masteredHFW s) (Inventory.attendanceCount s) (Inventory.lastSeen s)
               (Inventory.notes s)
               (Inventory.mkHist now title (step ++ "." ++ substep) :: Inventory.history s)) /\
     (~ In (Inventory.id s) ids -> s' = s)).
Proof.
  unfold Inventory.complete_students. split.
  - rewrite map_map. apply map_ext. intros t.
    destruct (Inventory.includes_item ids (Inventory.id t)); reflexivity.
  - intros H. rewrite nth_error_map, H. cbn [option_map]. eexists. split; [reflexivity|].
    split.
    + intros Hi. apply InventoryFacts.includes_item_spec in Hi. rewrite Hi. reflexivity.
    + intros Hn. destruct (Inventory.includes_item ids (Inventory.id s)) eqn:B; [|reflexivity].
      apply InventoryFacts.includes_item_spec in B. contradiction.
Qed.

Lemma X18_complete_students_witness :
  exists s', nth_error (Inventory.complete_students "10/14" "Lesson" "3" "1" ["s2"]
                 [Inventory.mkStudent "s1" "Ann" [] [] 3 None "" []]) 0 = Some s' /\
             s' = Inventory.mkStudent "s1" "Ann" [] [] 3 None "" [].
Proof.
  destruct (proj2 (X18_complete_students "10/14" "Lesson" "3" "1" ["s2"]
              [Inventory.mkStudent "s1" "Ann" [] [] 3 None "" []] 0
              (Inventory.mkStudent "s1" "Ann" [] [] 3 None "" [])) eq_refl) as (s' & H & _ & Hn).
  exists s'. split; [exact H|]. apply Hn. intros [E|[]]. discriminate E.
Defined.
